(** * The service worker's caching engine

    A shallow embedding of the service worker of performant-web-tpl
    (install / activate / fetch / message handlers, the three serving
    strategies and the size limiter), with the properties its
    specification states about it.

    The worker talks to three host objects: the Cache Storage
    ([caches]), the network ([fetch]) and the console.  They are kept in
    an explicit [World]; handlers are computations in a state monad with
    exceptions (a rejected promise is a thrown exception, [try]/[catch]
    and [.catch] are [try_catch]).  A promise that the source starts but
    does not await runs to its end, its rejection recorded as unhandled
    instead of being propagated: what a handler leaves is the world
    once all it started has settled.  Where the source starts a [put]
    and an eviction pass in a row and awaits neither, the code fixes no
    order between them: the point of the pass at which the put lands
    is the host's ([put_lands]).  A fetch is started ([network]) and
    settles later ([settled]).  Stale-while-revalidate, whose caller
    may be answered while the fetch is pending, is modelled in two
    steps: the call, which has no network answer at hand, and the
    handler of the pending fetch, run with that answer in any later
    world.

    What can fail is what the source guards against or the properties
    speak of: a fetch (it rejects), [cache.addAll] (it rejects when one
    of its fetches fails or is answered with a status that is not ok,
    or with 206) and the deletion of a cache key.  Opening, matching,
    putting and enumerating are total operations on the store.

    The computing parts of the streaming routes of the server (the
    byte range of a video request and what the route answers to it,
    the chunks of the data route, the event stream) are embedded in
    [Streaming]. *)

From Stdlib Require Import String List ZArith Bool Arith Lia.
From Stdlib Require Import Ascii DecimalString DecimalPos DecimalZ.
Import ListNotations.

Open Scope string_scope.
Open Scope list_scope.

(** ** Data *)

(** [new URL(request.url)]: the parts the worker reads. *)
Record URL : Type := mkURL
  { origin : string
  ; pathname : string
  ; search : string }.

Definition href (u : URL) : string := origin u ++ pathname u ++ search u.

(** A request: its URL and [request.destination].  Requests are GET
    requests; a cache is keyed by the request URL. *)
Record Request : Type := mkRequest
  { url : URL
  ; destination : string }.

Record Response : Type := mkResponse
  { status : Z
  ; body : string }.

(** [response.clone()] yields a response with the same content. *)
Definition clone (r : Response) : Response := r.

(** A cache keeps its entries in insertion order, the order in which
    [cache.keys()] enumerates them. *)
Definition Cache : Type := list (string * Response).

(** The cache storage keeps its caches in creation order, the order in
    which [caches.keys()] and [caches.match] visit them. *)
Definition CacheStorage : Type := list (string * Cache).

(** ** The cache storage as a value *)

Module Store.

Definition has (name : string) (s : CacheStorage) : bool :=
  existsb (fun c => fst c =? name) s.

Fixpoint lookup (name : string) (s : CacheStorage) : option Cache :=
  match s with
  | [] => None
  | (n, c) :: s' => if n =? name then Some c else lookup name s'
  end.

(** [caches.open(name)] creates the cache when there is none. *)
Definition open (name : string) (s : CacheStorage) : CacheStorage :=
  if has name s then s else s ++ [(name, [])].

(** [caches.delete(name)]. *)
Definition delete (name : string) (s : CacheStorage) : CacheStorage :=
  filter (fun c => negb (fst c =? name)) s.

Definition names (s : CacheStorage) : list string := map fst s.

Definition update (name : string) (f : Cache -> Cache) (s : CacheStorage)
  : CacheStorage :=
  map (fun c => if fst c =? name then (fst c, f (snd c)) else c) s.

Fixpoint matchEntry (key : string) (c : Cache) : option Response :=
  match c with
  | [] => None
  | (k, r) :: c' => if k =? key then Some r else matchEntry key c'
  end.

(** [caches.match(request)]: the caches are searched in creation
    order and the first entry found is the answer. *)
Fixpoint matchAll (key : string) (s : CacheStorage) : option Response :=
  match s with
  | [] => None
  | (_, c) :: s' =>
      match matchEntry key c with
      | Some r => Some r
      | None => matchAll key s'
      end
  end.

Definition keys (c : Cache) : list string := map fst c.

(** [cache.delete(key)] removes the entry of that key. *)
Definition remove (key : string) (c : Cache) : Cache :=
  filter (fun e => negb (fst e =? key)) c.

(** [cache.put(key, response)]: an entry of the same key is replaced,
    and the new entry is the most recent one. *)
Definition put (key : string) (r : Response) (c : Cache) : Cache :=
  remove key c ++ [(key, r)].

End Store.

(** ** The world and the monad of handlers *)

Record World : Type := mkWorld
  { caches : CacheStorage
  ; console : list string          (* messages written, oldest first *)
  ; network : list string          (* URLs fetched, oldest first *)
  ; constructed : list Response    (* responses made by [new Response] *)
  ; unhandled : list string        (* rejections nobody awaited *)
  ; hostCalls : list string        (* skipWaiting, clients.claim *)
  ; settled : list string }.       (* URLs whose fetch has settled *)

Definition emptyWorld : World := mkWorld [] [] [] [] [] [] [].

Definition withCaches (f : CacheStorage -> CacheStorage) (w : World) : World :=
  mkWorld (f (caches w)) (console w) (network w) (constructed w)
          (unhandled w) (hostCalls w) (settled w).

Inductive result (A : Type) : Type :=
| Ok (a : A)
| Throw (e : string).
Arguments Ok {A} a.
Arguments Throw {A} e.

Definition M (A : Type) : Type := World -> result A * World.

Definition ret {A} (a : A) : M A := fun w => (Ok a, w).

Definition bind {A B} (m : M A) (k : A -> M B) : M B :=
  fun w =>
    match m w with
    | (Ok a, w') => k a w'
    | (Throw e, w') => (Throw e, w')
    end.

Definition throw {A} (e : string) : M A := fun w => (Throw e, w).

(** [try { m } catch (error) { h error }], and [m.catch(h)]. *)
Definition try_catch {A} (m : M A) (h : string -> M A) : M A :=
  fun w =>
    match m w with
    | (Ok a, w') => (Ok a, w')
    | (Throw e, w') => h e w'
    end.

(** A promise that is started and not awaited, run to its end: its
    effects happen, its value is dropped and its rejection reaches
    nobody.  When it happens relative to other work that is not awaited
    either is not fixed by this; see [Landing]. *)
Definition detached {A} (m : M A) : M unit :=
  fun w =>
    match m w with
    | (Ok _, w') => (Ok tt, w')
    | (Throw e, w') =>
        (Ok tt, mkWorld (caches w') (console w') (network w') (constructed w')
                        (unhandled w' ++ [e]) (hostCalls w') (settled w'))
    end.

(** Network-first and stale-while-revalidate start [cache.put] and
    then [limitCacheSize], and await neither.  The pass reads the keys
    of the cache and then deletes the oldest ones; the entry of the put
    lands before the pass has read the keys, or after that and before
    the pass deletes, or after the deletions.  (The deletions of other
    keys commute with the put, so between the deletions only the one of
    the put's own key matters: the put lands before or after it.) *)
Inductive Landing : Type :=
| BeforeKeysRead
| BeforeDeletes
| AfterDeletes.

Declare Scope sw_scope.
Delimit Scope sw_scope with sw.
Notation "x <- m ;; k" := (bind m (fun x => k))
  (at level 61, m at next level, right associativity) : sw_scope.
Notation "m ;; k" := (bind m (fun _ => k))
  (at level 61, right associativity) : sw_scope.
Open Scope sw_scope.

(** [Promise.all(xs.map(f))]: every promise is started, in order; the
    result rejects with the first rejection once all have settled. *)
Fixpoint promise_all {A B} (f : A -> M B) (xs : list A) : M (list B) :=
  match xs with
  | [] => ret []
  | x :: xs' =>
      fun w =>
        match f x w with
        | (Ok b, w1) =>
            match promise_all f xs' w1 with
            | (Ok bs, w2) => (Ok (b :: bs), w2)
            | (Throw e, w2) => (Throw e, w2)
            end
        | (Throw e, w1) => (Throw e, snd (promise_all f xs' w1))
        end
  end.

Definition console_log (msg : string) : M unit :=
  fun w => (Ok tt, mkWorld (caches w) (console w ++ [msg]) (network w)
                           (constructed w) (unhandled w) (hostCalls w)
                           (settled w)).

Definition host_call (what : string) : M unit :=
  fun w => (Ok tt, mkWorld (caches w) (console w) (network w)
                           (constructed w) (unhandled w) (hostCalls w ++ [what])
                           (settled w)).

(** [new Response(body, { status })]. *)
Definition new_Response (b : string) (st : Z) : M Response :=
  fun w => let r := mkResponse st b in
           (Ok r, mkWorld (caches w) (console w) (network w)
                          (constructed w ++ [r]) (unhandled w) (hostCalls w)
                          (settled w)).

(** ** Host operations *)

Definition caches_open (name : string) : M string :=
  fun w => (Ok name, withCaches (Store.open name) w).

Definition caches_match (key : string) : M (option Response) :=
  fun w => (Ok (Store.matchAll key (caches w)), w).

Definition caches_keys : M (list string) :=
  fun w => (Ok (Store.names (caches w)), w).

Definition caches_delete (name : string) : M bool :=
  fun w => (Ok (Store.has name (caches w)), withCaches (Store.delete name) w).

Definition cache_put (cache key : string) (r : Response) : M unit :=
  fun w => (Ok tt, withCaches (Store.update cache (Store.put key r)) w).

Definition cache_keys (cache : string) : M (list string) :=
  fun w =>
    (Ok match Store.lookup cache (caches w) with
        | Some c => Store.keys c
        | None => []
        end, w).

(** A response is [ok] when its status is in 200..299. *)
Definition ok (r : Response) : bool :=
  (200 <=? status r)%Z && (status r <=? 299)%Z.

(** ** The streaming routes

    The routes of the Express router that compute something: the byte
    range of [/video/:filename], the chunks of [/data] and the event
    stream of [/events].  File access and the creation of streams are
    the host's and are not modelled. *)

Module Streaming.

(** A JavaScript number as far as the routes compute with it: not a
    number, an integer of magnitude at most 2^53 (a double holds these
    exactly, and arithmetic on them is exact as long as the result is
    one of them), or a double beyond that, about which the model says
    nothing. *)
Inductive Num : Type :=
| NaN
| Int (z : Z)
| Beyond.

Definition exact (z : Z) : Num :=
  if (Z.abs z <=? 2 ^ 53)%Z then Int z else Beyond.

Definition sub (a b : Num) : Num :=
  match a, b with
  | NaN, _ => NaN
  | _, NaN => NaN
  | Int x, Int y => exact (x - y)
  | _, _ => Beyond
  end.

Definition add (a b : Num) : Num :=
  match a, b with
  | NaN, _ => NaN
  | _, NaN => NaN
  | Int x, Int y => exact (x + y)
  | _, _ => Beyond
  end.

(** [String(n)] and [`${n}`]. *)
Definition decimal (z : Z) : string := NilZero.string_of_int (Z.to_int z).

Definition toString (n : Num) : option string :=
  match n with
  | NaN => Some "NaN"
  | Int z => Some (decimal z)
  | Beyond => None
  end.

(** *** parseInt

    Strings are sequences of code units below 256, as the header and
    query strings of a request are.  [radix] is 0 when the call gives
    none. *)
Definition isWhiteSpace (c : ascii) : bool :=
  existsb (Nat.eqb (nat_of_ascii c)) [9; 10; 11; 12; 13; 32; 160]%nat.

Fixpoint trimStart (s : string) : string :=
  match s with
  | EmptyString => EmptyString
  | String c s' => if isWhiteSpace c then trimStart s' else s
  end.

Definition digitOf (c : ascii) : option Z :=
  let n := Z.of_nat (nat_of_ascii c) in
  if ((48 <=? n) && (n <=? 57))%Z then Some (n - 48)%Z
  else if ((97 <=? n) && (n <=? 122))%Z then Some (n - 87)%Z
  else if ((65 <=? n) && (n <=? 90))%Z then Some (n - 55)%Z
  else None.

(** The values of the longest prefix of radix-[R] digits. *)
Fixpoint digits (R : Z) (s : string) : list Z :=
  match s with
  | EmptyString => []
  | String c s' =>
      match digitOf c with
      | Some d => if (d <? R)%Z then d :: digits R s' else []
      | None => []
      end
  end.

Definition valueOf (R : Z) (ds : list Z) : Z :=
  fold_left (fun acc d => (acc * R + d)%Z) ds 0%Z.

Fixpoint dropN (n : nat) (s : string) : string :=
  match n, s with
  | O, _ => s
  | S n', String _ s' => dropN n' s'
  | S _, EmptyString => EmptyString
  end.

Definition parseInt (input : string) (radix : Z) : Num :=
  let S0 := trimStart input in
  let sign := match S0 with
              | String "-"%char _ => (-1)%Z
              | _ => 1%Z
              end in
  let S1 := match S0 with
            | String "-"%char S' => S'
            | String "+"%char S' => S'
            | _ => S0
            end in
  if (radix =? 0)%Z || ((2 <=? radix) && (radix <=? 36))%Z then
    let stripPrefix := ((radix =? 0) || (radix =? 16))%Z in
    let hex := stripPrefix && (prefix "0x" S1 || prefix "0X" S1) in
    let R := if hex then 16%Z else if (radix =? 0)%Z then 10%Z else radix in
    let S2 := if hex then dropN 2 S1 else S1 in
    match digits R S2 with
    | [] => NaN
    | ds => exact (sign * valueOf R ds)
    end
  else NaN.

(** *** The byte range of a video request *)

(** [s.replace(/pat/, '')] for a pattern of plain characters: the first
    occurrence is removed. *)
Fixpoint removeFirst (pat s : string) : string :=
  if prefix pat s then dropN (String.length pat) s
  else match s with
       | EmptyString => EmptyString
       | String c s' => String c (removeFirst pat s')
       end.

(** [s.split(sep)] for a one-character separator. *)
Fixpoint split (sep : ascii) (s : string) : list string :=
  match s with
  | EmptyString => [EmptyString]
  | String c s' =>
      if Ascii.eqb c sep then EmptyString :: split sep s'
      else match split sep s' with
           | h :: t => String c h :: t
           | [] => [String c EmptyString]
           end
  end.

Record ByteRange : Type := mkByteRange
  { start : Num
  ; end_ : Num
  ; chunkSize : Num }.

(** The range branch of the video route, from the Range header and
    the size of the file. *)
Definition parseRange (range : string) (fileSize : Z) : ByteRange :=
  let parts := split "-" (removeFirst "bytes=" range) in
  let start := parseInt (nth 0 parts EmptyString) 10 in
  let end_ :=
    match nth_error parts 1 with
    | Some (String c p) => parseInt (String c p) 10
    | _ => exact (fileSize - 1)
    end in
  let chunkSize := add (sub end_ start) (Int 1) in
  mkByteRange start end_ chunkSize.

(** [createReadStream(videoPath, { start, end })] checks its options
    before anything is read: each has to be an integer from 0 to
    2^53 - 1, and the start must not be after the end; otherwise it
    throws.  [Some true]: the stream is there; [Some false]: the call
    threw; [None]: the end is beyond 2^53, where the model cannot tell
    a large double from Infinity, which passes. *)
Definition safeInteger (z : Z) : bool :=
  ((0 <=? z) && (z <=? 2 ^ 53 - 1))%Z.

Definition createReadStream (start end_ : Num) : option bool :=
  match start with
  | Int a =>
      if safeInteger a then
        match end_ with
        | Int b => Some (safeInteger b && (a <=? b)%Z)
        | NaN => Some false
        | Beyond => None
        end
      else Some false
  | _ => Some false
  end.

(** What the video route answers: the status, and the headers that
    depend on the request. *)
Inductive VideoAnswer : Type :=
| NotFound                       (* 404, Video not found *)
| PartialContent (contentRange : string) (contentLength : Z)   (* 206 *)
| WholeFile (contentLength : Z)  (* 200 *)
| StreamingFailed.               (* 500, Streaming failed *)

(** The route, from the size of the file ([None]: there is no such
    file) and the Range header ([None]: the request has none; an empty
    one counts as none).  The stream is created before the head is
    written, so when [createReadStream] throws the catch block answers
    500 and no Content-Range is sent. *)
Definition video (fileSize : option Z) (range : option string)
  : option VideoAnswer :=
  match fileSize with
  | None => Some NotFound
  | Some fileSize =>
      match range with
      | None | Some EmptyString => Some (WholeFile fileSize)
      | Some range =>
          let r := parseRange range fileSize in
          match createReadStream (start r) (end_ r) with
          | Some true =>
              match toString (start r), toString (end_ r), chunkSize r with
              | Some a, Some b, Int n =>
                  Some (PartialContent
                          ("bytes " ++ a ++ "-" ++ b ++ "/" ++ decimal fileSize)
                          n)
              | _, _, _ => None
              end
          | Some false => Some StreamingFailed
          | None => None
          end
      end
  end.

(** A string at whose start no radix-[R] digit stands. *)
Definition stops (R : Z) (s : string) : bool :=
  match s with
  | EmptyString => true
  | String c _ =>
      match digitOf c with
      | Some d => negb (d <? R)%Z
      | None => true
      end
  end.

(** *** The chunks of the data route *)

(** [parseInt(req.query.count) || 1000]; an absent parameter is
    [undefined]. *)
Definition countOf (count : option string) : Num :=
  match parseInt match count with
                 | Some s => s
                 | None => "undefined"
                 end 0 with
  | NaN => Int 1000
  | Int 0 => Int 1000
  | n => n
  end.

Section Data.

(** [JSON.stringify(item)] for the item of index [i]; its value and
    timestamp are the host's. *)
Variable stringify : nat -> string.

(** [n] more rounds of the loop, at index [i]. *)
Fixpoint writeItems (count : Z) (n i : nat) : list string :=
  match n with
  | O => []
  | S n' =>
      stringify i
        :: (if (Z.of_nat i <? count - 1)%Z then [","] else [])
        ++ writeItems count n' (S i)
  end.

Definition dataChunks (count : Z) : list string :=
  "[" :: writeItems count (Z.to_nat count) 0 ++ ["]"].

(** What the route writes, in order; nothing is said for a count
    beyond 2^53. *)
Definition data (count : option string) : option (list string) :=
  match countOf count with
  | Int c => Some (dataChunks c)
  | _ => None
  end.

End Data.

(** *** The event stream *)

Definition quote : string := String (ascii_of_nat 34) EmptyString.
Definition newline : string := String (ascii_of_nat 10) EmptyString.

(** What was written to the response, whether the interval timer is
    set, and whether the response was ended. *)
Record Stream : Type := mkStream
  { written : list string
  ; timer : bool
  ; ended : bool }.

(** The interval elapsing (with the JSON text of its update), and the
    client disconnecting. *)
Inductive Event : Type :=
| Tick (json : string)
| Close.

Definition connect : Stream :=
  mkStream
    [("data: {" ++ quote ++ "message" ++ quote ++ ": " ++ quote
      ++ "Connected to event stream" ++ quote ++ "}" ++ newline ++ newline)
     %string]
    true false.

(** The timer's callback runs only while the timer is set. *)
Definition step (s : Stream) (e : Event) : Stream :=
  match e with
  | Tick json =>
      if timer s
      then mkStream
             (written s ++ [("data: " ++ json ++ newline ++ newline)%string])
             (timer s) (ended s)
      else s
  | Close => mkStream (written s) false true
  end.

Definition events (es : list Event) : Stream := fold_left step es connect.

Definition isTick (e : Event) : bool :=
  match e with
  | Tick _ => true
  | Close => false
  end.

Definition frameOf (e : Event) : list string :=
  match e with
  | Tick json => [("data: " ++ json ++ newline ++ newline)%string]
  | Close => []
  end.

End Streaming.

(** ** Sample hosts, requests and stores *)

Module Sample.

Definition appOrigin : string := "https://app.example".

(** The cache version of the build the source was taken from. *)
Definition buildVersion : string := "dev-1772130527350".

Definition request (path dest : string) : Request :=
  mkRequest (mkURL appOrigin path "") dest.

Definition fresh : Response := mkResponse 200 "fresh".
Definition stale : Response := mkResponse 200 "stale".
Definition notFound : Response := mkResponse 404 "Not Found".
Definition partial : Response := mkResponse 206 "part".

(** Networks: one that answers 200 to everything, one that answers
    404, one that is unreachable, and one on which only the icon of
    the manifest cannot be fetched. *)
Definition online (u : string) : option Response := Some fresh.
Definition missing (u : string) : option Response := Some notFound.
Definition unreachable (u : string) : option Response := None.
Definition withoutIcon (u : string) : option Response :=
  if u =? "https://app.example/favicon.png" then None else Some fresh.

(** A network that answers the request for the manifest with a part
    of it. *)
Definition partialManifest (u : string) : option Response :=
  if u =? "https://app.example/manifest.json" then Some partial
  else Some fresh.

(** Stores: deletions never reject, or reject for one key. *)
Definition reliable (cache key : string) : bool := false.
Definition stuckOn (k : string) (cache key : string) : bool := key =? k.

(** Hosts by where the put lands relative to the eviction pass that
    is started after it. *)
Definition putFirst (cache key : string) : Landing := BeforeKeysRead.
Definition putBetween (cache key : string) : Landing := BeforeDeletes.
Definition putLast (cache key : string) : Landing := AfterDeletes.

Definition world (s : CacheStorage) : World := mkWorld s [] [] [] [] [] [].

(** A cache filled by four puts, in the order A, B, C, D. *)
Definition abcd : Cache :=
  Store.put "D" fresh
    (Store.put "C" fresh (Store.put "B" fresh (Store.put "A" fresh []))).

(** The logo is cached, in the dynamic cache only. *)
Definition logoInDynamic : CacheStorage :=
  [ ("dynamic-v2", [("https://app.example/logo.png", stale)])
  ; ("static-v2", []) ].

Definition logoInImages : CacheStorage :=
  [ ("images-v2", [("https://app.example/logo.png", stale)]) ].

Definition afterUpgrade : CacheStorage :=
  [ ("static-v1", []); ("dynamic-v1", []); ("images-v1", [])
  ; ("unrelated-foo", [("https://app.example/", stale)]) ].

Definition afterBuild : CacheStorage :=
  [ ("static-dev-1772130527349", []); ("static-dev-1772130527350", [])
  ; ("workbox-precache-v2", []); ("images-dev-1772130527350", []) ].

Definition offlinePage : Response := mkResponse 200 "You are offline".

(** A cache of [n] images, put in the order 0, 1, ..., n - 1. *)
Definition gallery (n : nat) : Cache :=
  map (fun i => (("https://app.example/img/" ++
                  Streaming.decimal (Z.of_nat i))%string, stale))
      (seq 0 n).

(** The offline page is cached in the static cache. *)
Definition withOfflinePage : CacheStorage :=
  [ ("static-v2", [("https://app.example/offline.html", offlinePage)])
  ; ("images-v2", [("https://app.example/logo.png", stale)]) ].

End Sample.

Section Worker.

(** The host the worker runs in: its own origin, the build's cache
    version, what the network answers for a URL ([None]: the fetch
    rejects), which deletions of a cache key reject, and when the put
    of a key into a cache lands relative to the eviction pass started
    right after it. *)
Variable location_origin : string.
Variable CACHE_VERSION : string.
Variable server : string -> option Response.
Variable delete_rejects : string -> string -> bool.
Variable put_lands : string -> string -> Landing.

Set Default Proof Using "Type".

Definition fetch_begin (u : string) : M unit :=
  fun w => (Ok tt, mkWorld (caches w) (console w) (network w ++ [u])
                           (constructed w) (unhandled w) (hostCalls w)
                           (settled w)).

(** The fetch of [u], under way, settles with [answer] ([None]: it
    rejects); whoever awaits it goes on from here. *)
Definition fetch_settled (u : string) (answer : option Response) : M Response :=
  fun w =>
    let w' := mkWorld (caches w) (console w) (network w) (constructed w)
                      (unhandled w) (hostCalls w) (settled w ++ [u]) in
    match answer with
    | Some r => (Ok r, w')
    | None => (Throw "Failed to fetch", w')
    end.

Definition fetch_settle (u : string) : M Response :=
  fetch_settled u (server u).

(** [await fetch(request)]. *)
Definition fetch (request : Request) : M Response :=
  fetch_begin (href (url request));; fetch_settle (href (url request)).

Definition cache_delete (cache key : string) : M bool :=
  fun w =>
    if delete_rejects cache key then (Throw "cache.delete failed", w)
    else
      (Ok match Store.lookup cache (caches w) with
          | Some c => existsb (fun e => fst e =? key) c
          | None => false
          end,
       withCaches (Store.update cache (Store.remove key)) w).

(** [cache.addAll(paths)]: every path is fetched; the responses are
    stored only when every fetch succeeded with an [ok] response that
    is not a partial one (206), otherwise the promise rejects and
    nothing is stored. *)
Definition fetch_all (paths : list string)
  : M (list (string * option Response)) :=
  promise_all
    (fun p => let u := (location_origin ++ p)%string in
              fetch_begin u;;
              try_catch (r <- fetch_settle u;; ret (u, Some r))
                        (fun _ => ret (u, None)))
    paths.

Definition accepted (o : option Response) : bool :=
  match o with
  | Some r => ok r && negb (status r =? 206)%Z
  | None => false
  end.

Fixpoint put_all (cache : string) (rs : list (string * option Response))
  : M unit :=
  match rs with
  | [] => ret tt
  | (k, Some r) :: rs' => cache_put cache k r;; put_all cache rs'
  | (_, None) :: rs' => put_all cache rs'
  end.

Definition cache_addAll (cache : string) (paths : list string) : M unit :=
  rs <- fetch_all paths;;
  if forallb (fun kr => accepted (snd kr)) rs
  then put_all cache rs
  else throw "TypeError: Failed to execute 'addAll' on 'Cache': Request failed".

(** ** The worker *)

Definition STATIC_CACHE : string := "static-" ++ CACHE_VERSION.
Definition DYNAMIC_CACHE : string := "dynamic-" ++ CACHE_VERSION.
Definition IMAGE_CACHE : string := "images-" ++ CACHE_VERSION.

Definition STATIC_ASSETS : list string :=
  ["/"; "/index.html"; "/manifest.json"; "/favicon.png"].

Record Limits : Type := mkLimits { images : nat; dynamic : nat }.
Definition LIMITS : Limits := {| images := 50; dynamic := 100 |}.

(** *** install *)

(** The promise handed to [event.waitUntil]. *)
Definition install_work : M unit :=
  try_catch
    (cache <- caches_open STATIC_CACHE;;
     console_log "[SW] Caching static assets";;
     cache_addAll cache STATIC_ASSETS)
    (fun error =>
       console_log ("[SW] Failed to cache static assets: " ++ error)).

Definition install : M unit :=
  console_log "[SW] Installing service worker...";;
  console_log "[SW] Precache manifest:";;
  install_work;;
  host_call "skipWaiting".

(** *** activate *)

Definition has_role_prefix (cacheName : string) : bool :=
  prefix "static-" cacheName ||
  prefix "dynamic-" cacheName ||
  prefix "images-" cacheName.

Definition not_current (cacheName : string) : bool :=
  negb (cacheName =? STATIC_CACHE) &&
  negb (cacheName =? DYNAMIC_CACHE) &&
  negb (cacheName =? IMAGE_CACHE).

Definition activate : M unit :=
  console_log "[SW] Activating service worker...";;
  cacheNames <- caches_keys;;
  promise_all
    (fun cacheName =>
       console_log ("[SW] Deleting old cache: " ++ cacheName);;
       caches_delete cacheName)
    (filter not_current (filter has_role_prefix cacheNames));;
  console_log "[SW] Service worker activated";;
  host_call "clients.claim".

(** *** Limit cache size by removing oldest entries *)

Definition limitCacheSize (cacheName : string) (maxItems : nat) : M unit :=
  cache <- caches_open cacheName;;
  keys <- cache_keys cache;;
  if (maxItems <? length keys)%nat then
    let toDelete := firstn (length keys - maxItems) keys in
    promise_all (cache_delete cache) toDelete;;
    ret tt
  else ret tt.

(** The same pass, with what else happens between its reading the
    keys and its deletions. *)
Definition limitCacheSize_while (meanwhile : M unit)
           (cacheName : string) (maxItems : nat) : M unit :=
  cache <- caches_open cacheName;;
  keys <- cache_keys cache;;
  meanwhile;;
  if (maxItems <? length keys)%nat then
    let toDelete := firstn (length keys - maxItems) keys in
    promise_all (cache_delete cache) toDelete;;
    ret tt
  else ret tt.

(** [cache.put(...); limitCacheSize(cacheName, maxItems);], neither
    awaited: both run to their end, the put landing where the host
    has it land. *)
Definition put_and_limitCacheSize (landing : Landing) (put : M unit)
           (cacheName : string) (maxItems : nat) : M unit :=
  match landing with
  | BeforeKeysRead =>
      detached put;;
      detached (limitCacheSize cacheName maxItems)
  | BeforeDeletes =>
      detached (limitCacheSize_while (detached put) cacheName maxItems)
  | AfterDeletes =>
      detached (limitCacheSize cacheName maxItems);;
      detached put
  end.

(** *** Cache-first strategy *)

(** In the three strategies [networkResponse && ...] tests a response,
    which is always there once the fetch has resolved; what is left of
    the test is the status.  [cache.put] and [limitCacheSize] are
    started and not awaited; cache-first starts the put alone. *)
Definition cacheFirst (request : Request) (cacheName : string) : M Response :=
  try_catch
    (cachedResponse <- caches_match (href (url request));;
     match cachedResponse with
     | Some cached => ret cached
     | None =>
         networkResponse <- fetch request;;
         (if (status networkResponse =? 200)%Z then
            cache <- caches_open cacheName;;
            detached (cache_put cache (href (url request))
                                (clone networkResponse))
          else ret tt);;
         ret networkResponse
     end)
    (fun error =>
       console_log ("[SW] Cache-first failed: " ++ error);;
       offlineResponse <- caches_match (location_origin ++ "/offline.html");;
       match offlineResponse with
       | Some offline => ret offline
       | None => new_Response "Offline" 503
       end).

(** *** Network-first strategy *)

Definition networkFirst (request : Request) (cacheName : string) : M Response :=
  try_catch
    (networkResponse <- fetch request;;
     (if (status networkResponse =? 200)%Z then
        cache <- caches_open cacheName;;
        put_and_limitCacheSize
          (put_lands cacheName (href (url request)))
          (cache_put cache (href (url request)) (clone networkResponse))
          cacheName (dynamic LIMITS)
      else ret tt);;
     ret networkResponse)
    (fun error =>
       console_log ("[SW] Network failed, trying cache: " ++ error);;
       cachedResponse <- caches_match (href (url request));;
       match cachedResponse with
       | Some cached => ret cached
       | None => new_Response "Offline" 503
       end).

(** *** Stale-while-revalidate strategy *)

(** What [fetch(request).then(...).catch(...)] does when the fetch,
    under way since the call, settles with [answer]. *)
Definition revalidated (request : Request) (cacheName : string)
           (answer : option Response) : M Response :=
  try_catch
    (networkResponse <- fetch_settled (href (url request)) answer;;
     (if (status networkResponse =? 200)%Z then
        cache <- caches_open cacheName;;
        put_and_limitCacheSize
          (put_lands cacheName (href (url request)))
          (cache_put cache (href (url request)) (clone networkResponse))
          cacheName (images LIMITS)
      else ret tt);;
     ret networkResponse)
    (fun error =>
       console_log ("[SW] Fetch failed: " ++ error);;
       new_Response "Offline" 503).

(** The same, with the answer of this host's network. *)
Definition revalidate (request : Request) (cacheName : string) : M Response :=
  revalidated request cacheName (server (href (url request))).

(** The call returns [cachedResponse || fetchPromise] with the fetch
    pending: [returned] is the cached response the caller's promise is
    resolved with at once, if there is one; [awaiting] is the URL whose
    fetch is under way, and [fetchPromise] is what is chained to that
    fetch, to be run with its outcome when there is one.  The call has
    no network answer at hand. *)
Record Revalidating : Type := mkRevalidating
  { returned : option Response
  ; awaiting : string
  ; fetchPromise : option Response -> M Response }.

Definition staleWhileRevalidate (request : Request) (cacheName : string)
  : M Revalidating :=
  cachedResponse <- caches_match (href (url request));;
  fetch_begin (href (url request));;
  ret (mkRevalidating cachedResponse (href (url request))
                      (revalidated request cacheName)).

(** The response the caller ends up with, once the network of this
    host has answered and [fetchPromise] has settled as well. *)
Definition settle (call : M Revalidating) : M Response :=
  c <- call;;
  networkResult <- fetchPromise c (server (awaiting c));;
  ret match returned c with
      | Some cached => cached
      | None => networkResult
      end.

(** *** fetch: the dispatcher *)

Inductive Strategy : Type := CacheFirst | NetworkFirst | StaleWhileRevalidate.

(** What the handler does with the event: nothing (the browser handles
    the request), or [event.respondWith(strategy(request, cache))]. *)
Inductive Dispatch : Type :=
| PassThrough
| RespondWith (strategy : Strategy) (cacheName : string).

Definition onFetch (request : Request) : Dispatch :=
  let url := url request in
  if negb (origin url =? location_origin) then PassThrough
  else if prefix "/api/" (pathname url) then
    RespondWith NetworkFirst DYNAMIC_CACHE
  else if destination request =? "image" then
    RespondWith StaleWhileRevalidate IMAGE_CACHE
  else if (destination request =? "script") ||
          (destination request =? "style") ||
          (destination request =? "font") ||
          (destination request =? "document") then
    RespondWith CacheFirst STATIC_CACHE
  else RespondWith NetworkFirst DYNAMIC_CACHE.

Definition run (d : Dispatch) (request : Request) : M (option Response) :=
  match d with
  | PassThrough => ret None
  | RespondWith CacheFirst cacheName =>
      r <- cacheFirst request cacheName;; ret (Some r)
  | RespondWith NetworkFirst cacheName =>
      r <- networkFirst request cacheName;; ret (Some r)
  | RespondWith StaleWhileRevalidate cacheName =>
      r <- settle (staleWhileRevalidate request cacheName);; ret (Some r)
  end.

(** *** message *)

(** [data] is [event.data.type] when [event.data] is there. *)
Definition message (data : option string) : M unit :=
  console_log "[SW] Message received:";;
  (if match data with Some t => t =? "SKIP_WAITING" | None => false end
   then host_call "skipWaiting" else ret tt);;
  (if match data with Some t => t =? "CLEAR_CACHE" | None => false end
   then
     cacheNames <- caches_keys;;
     promise_all caches_delete cacheNames;;
     ret tt
   else ret tt).

(** ** The specification's vocabulary *)

(** The rule table of the dispatcher as the specification words it:
    an ordered list of (predicate, action) pairs, the first matching
    rule wins, and a default when none matches. *)
Definition Rule : Type := ((Request -> bool) * Dispatch)%type.

Definition spec_crossOrigin (request : Request) : bool :=
  negb (origin (url request) =? location_origin).

Definition spec_underApiPrefix (request : Request) : bool :=
  prefix "/api/" (pathname (url request)).

Definition spec_isImage (request : Request) : bool :=
  destination request =? "image".

Definition spec_isStaticType (request : Request) : bool :=
  existsb (String.eqb (destination request))
          ["script"; "style"; "font"; "document"].

Definition spec_ruleTable : list Rule :=
  [ (spec_crossOrigin, PassThrough)
  ; (spec_underApiPrefix, RespondWith NetworkFirst DYNAMIC_CACHE)
  ; (spec_isImage, RespondWith StaleWhileRevalidate IMAGE_CACHE)
  ; (spec_isStaticType, RespondWith CacheFirst STATIC_CACHE) ].

Definition spec_default : Dispatch := RespondWith NetworkFirst DYNAMIC_CACHE.

Fixpoint spec_firstMatch (rules : list Rule) (request : Request) : Dispatch :=
  match rules with
  | [] => spec_default
  | (applies, action) :: rules' =>
      if applies request then action else spec_firstMatch rules' request
  end.

(** A stale namespace as the specification words it: the name is a
    known role prefix followed by a version other than the current
    one. *)
Definition spec_roles : list string := ["static-"; "dynamic-"; "images-"].

Definition spec_stale (cacheName : string) : Prop :=
  exists role version,
    In role spec_roles /\
    cacheName = (role ++ version)%string /\
    version <> CACHE_VERSION.

(** The lookup of a request in one named cache only. *)
Definition spec_targetLookup (cacheName key : string) (s : CacheStorage)
  : option Response :=
  match Store.lookup cacheName s with
  | Some c => Store.matchEntry key c
  | None => None
  end.

(** Keys removed from a cache, all at once. *)
Definition removeAll (ks : list string) (c : Cache) : Cache :=
  filter (fun e => negb (existsb (String.eqb (fst e)) ks)) c.

(** The deletions of a pass that do not reject. *)
Definition carriedOut (cacheName : string) (ks : list string) : list string :=
  filter (fun k => negb (delete_rejects cacheName k)) ks.

(** The keys [limitCacheSize] reads, and those it sets out to delete. *)
Definition cachedKeys (cacheName : string) (s : CacheStorage) : list string :=
  match Store.lookup cacheName s with
  | Some c => Store.keys c
  | None => []
  end.

Definition toDelete (maxItems : nat) (keys : list string) : list string :=
  if (maxItems <? length keys)%nat
  then firstn (length keys - maxItems) keys
  else [].

(** The store an eviction pass leaves behind: the cache is opened,
    and every key it set out to delete whose deletion does not reject
    is gone. *)
Definition afterEviction (cacheName : string) (maxItems : nat)
           (s : CacheStorage) : CacheStorage :=
  let s1 := Store.open cacheName s in
  Store.update cacheName
    (removeAll (carriedOut cacheName
                  (toDelete maxItems (cachedKeys cacheName s1))))
    s1.

(** The store after a network response was captured: the cache is
    opened, the entry is put and eviction is enforced, the put having
    landed before the pass read the keys, or between that and the
    deletions (decided on the keys read before the put), or after the
    pass. *)
Definition capturedAt (landing : Landing) (cacheName key : string)
           (r : Response) (maxItems : nat) (s : CacheStorage) : CacheStorage :=
  let s1 := Store.open cacheName s in
  match landing with
  | BeforeKeysRead =>
      afterEviction cacheName maxItems
        (Store.update cacheName (Store.put key r) s1)
  | BeforeDeletes =>
      Store.update cacheName
        (removeAll (carriedOut cacheName
                      (toDelete maxItems (cachedKeys cacheName s1))))
        (Store.update cacheName (Store.put key r) s1)
  | AfterDeletes =>
      Store.update cacheName (Store.put key r)
        (afterEviction cacheName maxItems s1)
  end.

(** The target cache after a capture, from its content before. *)
Definition capturedCache (landing : Landing) (cacheName key : string)
           (r : Response) (maxItems : nat) (c : Cache) : Cache :=
  match landing with
  | BeforeKeysRead =>
      removeAll (carriedOut cacheName
                   (toDelete maxItems (Store.keys (Store.put key r c))))
                (Store.put key r c)
  | BeforeDeletes =>
      removeAll (carriedOut cacheName (toDelete maxItems (Store.keys c)))
                (Store.put key r c)
  | AfterDeletes =>
      Store.put key r
        (removeAll (carriedOut cacheName (toDelete maxItems (Store.keys c)))
                   c)
  end.

(** The put lands between the key read and the deletions of a pass
    that has set out to delete the very key it writes. *)
Definition overtaken (landing : Landing) (cacheName key : string)
           (maxItems : nat) (s : CacheStorage) : bool :=
  match landing with
  | BeforeDeletes =>
      existsb (String.eqb key)
        (toDelete maxItems (cachedKeys cacheName (Store.open cacheName s)))
  | _ => false
  end.

(** The storage without the caches of the given names. *)
Definition purged (names : list string) (s : CacheStorage) : CacheStorage :=
  filter (fun c => negb (existsb (String.eqb (fst c)) names)) s.

(** What [addAll] fetched, as (URL, outcome) pairs, and the cache after
    the responses among them were put in order. *)
Definition fetchedAll (paths : list string) : list (string * option Response) :=
  map (fun p => ((location_origin ++ p)%string, server (location_origin ++ p)))
      paths.

Fixpoint putAll (rs : list (string * option Response)) (c : Cache) : Cache :=
  match rs with
  | [] => c
  | (k, Some r) :: rs' => putAll rs' (Store.put k r c)
  | (_, None) :: rs' => putAll rs' c
  end.

Definition addAllFailure : string :=
  "TypeError: Failed to execute 'addAll' on 'Cache': Request failed".

(** No cache other than [cacheName] holds an entry for [key]. *)
Definition heldOnlyBy (cacheName key : string) (s : CacheStorage) : Prop :=
  forall n c, In (n, c) s -> n <> cacheName -> Store.matchEntry key c = None.

(** The content of a named cache, empty when there is no such cache. *)
Definition contentOf (cacheName : string) (s : CacheStorage) : Cache :=
  match Store.lookup cacheName s with
  | Some c => c
  | None => []
  end.

(** The names that the two filters of the activate handler select. *)
Definition selectedForPurge (cacheName : string) : bool :=
  has_role_prefix cacheName && not_current cacheName.

(** The world differs from another one in its caches (and in the
    rejections nobody awaited) at most. *)
Definition sameOutsideStore (w w' : World) : Prop :=
  console w' = console w /\ network w' = network w /\
  constructed w' = constructed w /\ hostCalls w' = hostCalls w /\
  settled w' = settled w.

(** ** The dispatcher *)

(** C1. The fetch handler is the rule table read top to bottom with
    the first match winning, and what it does with the event is the
    call that the winning rule names: for a cross-origin request it
    answers nothing and touches nothing (no response override);
    otherwise for a path under /api/ it responds with network-first
    on the dynamic cache; otherwise for an image with
    stale-while-revalidate on the image cache; otherwise for a script,
    style, font or document with cache-first on the static cache; and
    for every remaining request with network-first on the dynamic
    cache. *)
Theorem onFetch_first_match :
  forall request : Request,
    onFetch request = spec_firstMatch spec_ruleTable request /\
    run (onFetch request) request =
      (if spec_crossOrigin request then ret None
       else if spec_underApiPrefix request then
         r <- networkFirst request DYNAMIC_CACHE;; ret (Some r)
       else if spec_isImage request then
         r <- settle (staleWhileRevalidate request IMAGE_CACHE);; ret (Some r)
       else if spec_isStaticType request then
         r <- cacheFirst request STATIC_CACHE;; ret (Some r)
       else
         r <- networkFirst request DYNAMIC_CACHE;; ret (Some r)) /\
    (forall w, spec_crossOrigin request = true ->
               run (onFetch request) request w = (Ok None, w)).
Proof.
  intros request.
  unfold onFetch, spec_ruleTable, spec_firstMatch, spec_crossOrigin,
    spec_underApiPrefix, spec_isImage, spec_isStaticType, spec_default.
  simpl existsb. rewrite orb_false_r, !orb_assoc.
  destruct (negb (origin (url request) =? location_origin)).
  { repeat split; reflexivity. }
  destruct (prefix "/api/" (pathname (url request))).
  { repeat split; try reflexivity; discriminate. }
  destruct (destination request =? "image").
  { repeat split; try reflexivity; discriminate. }
  destruct ((destination request =? "script") ||
            (destination request =? "style") ||
            (destination request =? "font") ||
            (destination request =? "document"));
    repeat split; try reflexivity; discriminate.
Qed.

(** ** Facts about the store *)

Lemma lookup_has name s c :
  Store.lookup name s = Some c -> Store.has name s = true.
Proof.
  induction s as [|[n c0] s IH]; simpl; [discriminate|].
  destruct (n =? name); simpl; auto.
Qed.

Lemma has_lookup name s :
  Store.has name s = false -> Store.lookup name s = None.
Proof.
  induction s as [|[n c0] s IH]; simpl; [reflexivity|].
  destruct (n =? name); simpl; [discriminate | exact IH].
Qed.

Lemma open_existing name s c :
  Store.lookup name s = Some c -> Store.open name s = s.
Proof.
  intros H. unfold Store.open. now rewrite (lookup_has _ _ _ H).
Qed.

Lemma lookup_app name s t :
  Store.lookup name (s ++ t) =
  match Store.lookup name s with
  | Some c => Some c
  | None => Store.lookup name t
  end.
Proof.
  induction s as [|[n c0] s IH]; simpl; [reflexivity|].
  destruct (n =? name); auto.
Qed.

Lemma lookup_open name s :
  Store.lookup name (Store.open name s) =
  Some match Store.lookup name s with
       | Some c => c
       | None => []
       end.
Proof.
  unfold Store.open. destruct (Store.has name s) eqn:E.
  - destruct (Store.lookup name s) eqn:L; [reflexivity|].
    exfalso. clear - E L.
    induction s as [|[n c0] s IH]; simpl in *; [discriminate|].
    destruct (n =? name); simpl in *; [discriminate | auto].
  - rewrite lookup_app, (has_lookup _ _ E). simpl.
    now rewrite String.eqb_refl.
Qed.

Lemma lookup_open_other n name s :
  n <> name -> Store.lookup n (Store.open name s) = Store.lookup n s.
Proof.
  intros Hn. unfold Store.open. destruct (Store.has name s); [reflexivity|].
  rewrite lookup_app. destruct (Store.lookup n s); [reflexivity|].
  simpl. apply String.eqb_neq in Hn. rewrite String.eqb_sym in Hn.
  now rewrite Hn.
Qed.

Lemma lookup_update name f s :
  Store.lookup name (Store.update name f s) =
  option_map f (Store.lookup name s).
Proof.
  induction s as [|[n c0] s IH]; simpl; [reflexivity|].
  destruct (n =? name) eqn:E; simpl; rewrite E; [reflexivity | exact IH].
Qed.

Lemma lookup_update_other n name f s :
  n <> name -> Store.lookup n (Store.update name f s) = Store.lookup n s.
Proof.
  intros Hn. induction s as [|[m c0] s IH]; simpl; [reflexivity|].
  destruct (m =? name) eqn:E; simpl.
  - apply String.eqb_eq in E. subst m.
    apply String.eqb_neq in Hn. rewrite String.eqb_sym in Hn.
    now rewrite Hn.
  - now rewrite IH.
Qed.

Lemma update_ext name f g s :
  (forall c, f c = g c) -> Store.update name f s = Store.update name g s.
Proof.
  intros H. unfold Store.update. apply map_ext. intros [n c]. simpl.
  now rewrite H.
Qed.

Lemma update_update name f g s :
  Store.update name f (Store.update name g s) =
  Store.update name (fun c => f (g c)) s.
Proof.
  unfold Store.update. rewrite map_map. apply map_ext. intros [n c]. simpl.
  destruct (n =? name) eqn:E; simpl; now rewrite E.
Qed.

Lemma update_id name s : Store.update name (fun c => c) s = s.
Proof.
  unfold Store.update. rewrite <- (map_id s) at 2. apply map_ext.
  intros [n c]. simpl. now destruct (n =? name).
Qed.

Lemma matchEntry_app k c d :
  Store.matchEntry k (c ++ d) =
  match Store.matchEntry k c with
  | Some r => Some r
  | None => Store.matchEntry k d
  end.
Proof.
  induction c as [|[k0 r0] c IH]; simpl; [reflexivity|].
  destruct (k0 =? k); auto.
Qed.

Lemma matchEntry_remove k k' c :
  Store.matchEntry k (Store.remove k' c) =
  if k' =? k then None else Store.matchEntry k c.
Proof.
  induction c as [|[k0 r0] c IH]; simpl.
  - now destruct (k' =? k).
  - destruct (k0 =? k') eqn:E0; simpl.
    + apply String.eqb_eq in E0. subst k0. rewrite IH.
      now destruct (k' =? k).
    + rewrite IH. destruct (k0 =? k) eqn:E1; [|reflexivity].
      apply String.eqb_eq in E1. subst k0.
      rewrite String.eqb_sym in E0. now rewrite E0.
Qed.

(** After [cache.put(k', r)] the cache answers [r] for [k'] and what
    it answered before for any other key. *)
Lemma matchEntry_put k k' r c :
  Store.matchEntry k (Store.put k' r c) =
  if k' =? k then Some r else Store.matchEntry k c.
Proof.
  unfold Store.put. rewrite matchEntry_app, matchEntry_remove. simpl.
  destruct (k' =? k); [reflexivity|]. now destruct (Store.matchEntry k c).
Qed.

Lemma keys_remove k c :
  Store.keys (Store.remove k c) =
  filter (fun k0 => negb (k0 =? k)) (Store.keys c).
Proof.
  induction c as [|[k0 r0] c IH]; simpl; [reflexivity|].
  destruct (k0 =? k); simpl; now rewrite IH.
Qed.

(** The keys of a cache stay pairwise distinct under [put]. *)
Lemma put_NoDup k r c :
  NoDup (Store.keys c) -> NoDup (Store.keys (Store.put k r c)).
Proof.
  intros H. unfold Store.put, Store.keys. rewrite map_app. simpl.
  fold (Store.keys (Store.remove k c)). rewrite keys_remove.
  apply NoDup_app.
  - now apply NoDup_filter.
  - constructor; [intros [] | constructor].
  - intros x Hx [Hk|[]]. subst x. apply filter_In in Hx.
    destruct Hx as [_ Hx]. now rewrite String.eqb_refl in Hx.
Qed.

Lemma removeAll_nil c : removeAll [] c = c.
Proof. unfold removeAll. simpl. apply filter_true. Qed.

Lemma removeAll_remove k ks c :
  removeAll ks (Store.remove k c) = removeAll (k :: ks) c.
Proof.
  unfold removeAll, Store.remove.
  induction c as [|[k0 r0] c IH]; simpl; [reflexivity|].
  destruct (k0 =? k) eqn:E; simpl; [exact IH|].
  destruct (existsb (String.eqb k0) ks); simpl; now rewrite IH.
Qed.

(** Removing the first [n] keys of a cache whose keys are pairwise
    distinct leaves the entries after the first [n]. *)
Lemma removeAll_oldest n c :
  NoDup (Store.keys c) ->
  removeAll (firstn n (Store.keys c)) c = skipn n c.
Proof.
  revert n. induction c as [|[k r] c IH]; intros n Hnd.
  - now destruct n.
  - destruct n as [|n]; [apply removeAll_nil|].
    simpl in Hnd. inversion Hnd as [|? ? Hk Hc]; subst.
    simpl firstn. simpl skipn. unfold removeAll. simpl filter.
    rewrite String.eqb_refl. simpl.
    rewrite <- (IH n Hc). unfold removeAll. apply filter_ext_in.
    intros [k0 r0] Hin. simpl.
    destruct (k0 =? k) eqn:E; [|reflexivity].
    apply String.eqb_eq in E. subst k0.
    exfalso. apply Hk. unfold Store.keys.
    change k with (fst (k, r0)). now apply in_map.
Qed.

(** ** The eviction pass *)

Lemma withCaches_id w : withCaches (fun s => s) w = w.
Proof. now destruct w. Qed.

Lemma promise_all_cache_delete cache ks w :
  snd (promise_all (cache_delete cache) ks w) =
  withCaches (Store.update cache (removeAll (carriedOut cache ks))) w.
Proof.
  revert w. induction ks as [|k ks IH]; intros w.
  - simpl. rewrite <- (withCaches_id w) at 1. unfold withCaches. f_equal.
    rewrite (update_ext _ _ (fun c => c)) by apply removeAll_nil.
    now rewrite update_id.
  - simpl. unfold cache_delete at 1.
    destruct (delete_rejects cache k) eqn:E; simpl; [apply IH|].
    match goal with
    | |- snd (match promise_all ?f ?l ?v with _ => _ end) = _ =>
        specialize (IH v); destruct (promise_all f l v) as [[bs|e] w2]
    end; simpl in *; subst w2; unfold withCaches; simpl; f_equal;
      rewrite update_update; apply update_ext; intros c;
      apply removeAll_remove.
Qed.

Lemma promise_all_cache_delete_ok cache ks w :
  existsb (delete_rejects cache) ks = false ->
  exists bs, fst (promise_all (cache_delete cache) ks w) = Ok bs.
Proof.
  revert w. induction ks as [|k ks IH]; intros w H; simpl in *.
  - now exists [].
  - apply orb_false_iff in H. destruct H as [Hk Hks].
    unfold cache_delete at 1. rewrite Hk.
    match goal with
    | |- exists _, fst (match promise_all ?f ?l ?v with _ => _ end) = _ =>
        destruct (IH v Hks) as [bs Hbs];
        destruct (promise_all f l v) as [[bs'|e] w2]
    end; simpl in *; [eauto | discriminate].
Qed.

Lemma promise_all_cache_delete_throw cache ks w :
  existsb (delete_rejects cache) ks = true ->
  fst (promise_all (cache_delete cache) ks w) = Throw "cache.delete failed".
Proof.
  revert w. induction ks as [|k ks IH]; intros w H; simpl in *.
  - discriminate.
  - unfold cache_delete at 1.
    destruct (delete_rejects cache k) eqn:Hk; simpl in *; [reflexivity|].
    match goal with
    | |- fst (match promise_all ?f ?l ?v with _ => _ end) = _ =>
        specialize (IH v H); destruct (promise_all f l v) as [[bs'|e] w2]
    end; simpl in *; [discriminate | exact IH].
Qed.

Lemma limitCacheSize_world cacheName maxItems w :
  snd (limitCacheSize cacheName maxItems w) =
  withCaches (fun _ => afterEviction cacheName maxItems (caches w)) w.
Proof.
  unfold limitCacheSize, afterEviction, bind, caches_open, cache_keys,
    toDelete, cachedKeys.
  cbn [caches withCaches].
  set (s1 := Store.open cacheName (caches w)).
  set (keys := match Store.lookup cacheName s1 with
               | Some c => Store.keys c
               | None => []
               end).
  destruct (maxItems <? length keys)%nat.
  - match goal with
    | |- snd (match promise_all ?f ?l ?v with _ => _ end) = _ =>
        pose proof (promise_all_cache_delete cacheName l v) as H;
        destruct (promise_all f l v) as [[bs|e] w2]
    end; simpl in *; subst w2; reflexivity.
  - unfold ret, withCaches. simpl. f_equal.
    rewrite (update_ext _ _ (fun c => c)) by apply removeAll_nil.
    now rewrite update_id.
Qed.

Lemma limitCacheSize_result cacheName maxItems w :
  fst (limitCacheSize cacheName maxItems w) =
  if existsb (delete_rejects cacheName)
       (toDelete maxItems (cachedKeys cacheName
                             (Store.open cacheName (caches w))))
  then Throw "cache.delete failed"
  else Ok tt.
Proof.
  unfold limitCacheSize, bind, caches_open, cache_keys, toDelete, cachedKeys.
  cbn [caches withCaches].
  set (s1 := Store.open cacheName (caches w)).
  set (keys := match Store.lookup cacheName s1 with
               | Some c => Store.keys c
               | None => []
               end).
  destruct (maxItems <? length keys)%nat; [|reflexivity].
  match goal with
  | |- fst (match promise_all ?f ?l ?v with _ => _ end) = _ =>
      pose proof (promise_all_cache_delete_ok cacheName l v) as Hok;
      pose proof (promise_all_cache_delete_throw cacheName l v) as Hthrow;
      destruct (existsb (delete_rejects cacheName) l);
      destruct (promise_all f l v) as [[bs|e] w2]
  end; simpl in *.
  - specialize (Hthrow eq_refl). discriminate.
  - specialize (Hthrow eq_refl). now inversion Hthrow.
  - reflexivity.
  - destruct (Hok eq_refl). discriminate.
Qed.

(** The pass writes nothing to the console, fetches nothing,
    constructs no response and leaves no rejection behind by itself. *)
Lemma limitCacheSize_frame cacheName maxItems w :
  sameOutsideStore w (snd (limitCacheSize cacheName maxItems w)) /\
  unhandled (snd (limitCacheSize cacheName maxItems w)) = unhandled w.
Proof.
  rewrite limitCacheSize_world. unfold sameOutsideStore. now simpl.
Qed.

Lemma carriedOut_all cacheName ks :
  (forall k, delete_rejects cacheName k = false) ->
  carriedOut cacheName ks = ks /\
  existsb (delete_rejects cacheName) ks = false.
Proof.
  intros H. unfold carriedOut. induction ks as [|k ks [IH1 IH2]]; simpl.
  - now split.
  - rewrite (H k). simpl. now rewrite IH1, IH2.
Qed.

(** C5. Eviction is first-in first-out.  When a cache holds more
    entries than the limit (its keys pairwise distinct, as [put]
    keeps them, and no deletion rejecting), the pass deletes exactly
    count - limit entries, they are the oldest ones in insertion
    order (a prefix of the entries), and the entries retained are the
    most recent ones, at most limit many; other caches are not
    touched. *)
Theorem limitCacheSize_fifo cacheName maxItems w entries :
  Store.lookup cacheName (caches w) = Some entries ->
  NoDup (Store.keys entries) ->
  (forall k, delete_rejects cacheName k = false) ->
  maxItems < length entries ->
  exists w' deleted retained,
    limitCacheSize cacheName maxItems w = (Ok tt, w') /\
    entries = deleted ++ retained /\
    length deleted = length entries - maxItems /\
    Store.lookup cacheName (caches w') = Some retained /\
    length retained <= maxItems /\
    (forall n, n <> cacheName ->
               Store.lookup n (caches w') = Store.lookup n (caches w)).
Proof.
  intros Hlookup Hnd Hdel Hlt.
  set (d := length entries - maxItems).
  exists (snd (limitCacheSize cacheName maxItems w)),
         (firstn d entries), (skipn d entries).
  assert (Hopen : Store.open cacheName (caches w) = caches w)
    by (eapply open_existing; eauto).
  assert (Hkeys : cachedKeys cacheName (caches w) = Store.keys entries)
    by (unfold cachedKeys; now rewrite Hlookup).
  assert (Hlen : length (Store.keys entries) = length entries)
    by (unfold Store.keys; apply length_map).
  assert (Htd : toDelete maxItems (Store.keys entries) =
                firstn d (Store.keys entries)).
  { unfold toDelete. rewrite Hlen.
    now rewrite (proj2 (Nat.ltb_lt _ _) Hlt). }
  assert (Hcaches : caches (snd (limitCacheSize cacheName maxItems w)) =
                    Store.update cacheName
                      (removeAll (firstn d (Store.keys entries))) (caches w)).
  { rewrite limitCacheSize_world. cbn [caches withCaches].
    unfold afterEviction. rewrite Hopen, Hkeys, Htd.
    now rewrite (proj1 (carriedOut_all cacheName _ Hdel)). }
  repeat split.
  - rewrite (surjective_pairing (limitCacheSize cacheName maxItems w)).
    rewrite limitCacheSize_result, Hopen, Hkeys.
    now rewrite (proj2 (carriedOut_all cacheName _ Hdel)).
  - symmetry. apply firstn_skipn.
  - rewrite length_firstn. subst d. lia.
  - rewrite Hcaches, lookup_update, Hlookup. simpl.
    now rewrite removeAll_oldest.
  - rewrite length_skipn. subst d. lia.
  - intros n Hn. rewrite Hcaches. now apply lookup_update_other.
Qed.

(** ** The strategies, run *)

Lemma detached_limitCacheSize cacheName maxItems w :
  exists w',
    detached (limitCacheSize cacheName maxItems) w = (Ok tt, w') /\
    caches w' = afterEviction cacheName maxItems (caches w) /\
    sameOutsideStore w w'.
Proof.
  pose proof (limitCacheSize_world cacheName maxItems w) as H.
  unfold detached.
  destruct (limitCacheSize cacheName maxItems w) as [[u|e] w1];
    simpl in H; subst w1; eexists; (split; [reflexivity|]);
    unfold sameOutsideStore; simpl; repeat split; auto.
Qed.

Lemma open_open name s :
  Store.open name (Store.open name s) = Store.open name s.
Proof.
  pose proof (lookup_open name s) as H. now apply open_existing in H.
Qed.

Lemma open_update name f s :
  Store.open name (Store.update name f (Store.open name s)) =
  Store.update name f (Store.open name s).
Proof.
  eapply open_existing. rewrite lookup_update, lookup_open. reflexivity.
Qed.

(** The pass, with a put landing between its key read and its
    deletions: the deletions are those decided on the keys read
    before the put. *)
Lemma limitCacheSize_while_put cacheName key r maxItems w :
  snd (limitCacheSize_while (detached (cache_put cacheName key r))
         cacheName maxItems w) =
  withCaches (fun _ => capturedAt BeforeDeletes cacheName key r maxItems
                         (caches w)) w.
Proof.
  unfold limitCacheSize_while, capturedAt, bind, caches_open, cache_keys,
    detached, cache_put, toDelete, cachedKeys.
  cbn [fst snd caches withCaches].
  set (s1 := Store.open cacheName (caches w)).
  set (keys := match Store.lookup cacheName s1 with
               | Some c => Store.keys c
               | None => []
               end).
  destruct (maxItems <? length keys)%nat.
  - match goal with
    | |- snd (match promise_all ?f ?l ?v with _ => _ end) = _ =>
        pose proof (promise_all_cache_delete cacheName l v) as H;
        destruct (promise_all f l v) as [[bs|e] w2]
    end; simpl in *; subst w2; reflexivity.
  - unfold ret, withCaches. simpl. f_equal.
    rewrite (update_ext _ (removeAll _) (fun c => c)) by apply removeAll_nil.
    now rewrite update_id.
Qed.

(** The put and the pass that the strategies start after having
    opened the cache, run to their end. *)
Lemma put_and_limitCacheSize_run landing cacheName key r maxItems w :
  exists w',
    put_and_limitCacheSize landing (cache_put cacheName key r)
      cacheName maxItems (withCaches (Store.open cacheName) w) = (Ok tt, w') /\
    caches w' = capturedAt landing cacheName key r maxItems (caches w) /\
    sameOutsideStore w w'.
Proof.
  clear server put_lands location_origin.
  destruct landing; unfold put_and_limitCacheSize.
  - unfold bind, detached at 1, cache_put.
    cbn [fst snd withCaches caches console network constructed unhandled
         hostCalls settled].
    match goal with
    | |- context [detached (limitCacheSize ?n ?m) ?v] =>
        destruct (detached_limitCacheSize n m v) as (w' & E & Hc & Hf)
    end.
    rewrite E. eexists. split; [reflexivity|].
    unfold sameOutsideStore in *. simpl in *. unfold capturedAt. auto.
  - match goal with
    | |- context [detached ?m ?v] =>
        pose proof (limitCacheSize_while_put cacheName key r maxItems v) as H;
        unfold detached at 1; destruct (m v) as [[u|e] w1]
    end; simpl in H; subst w1; eexists; (split; [reflexivity|]);
      unfold sameOutsideStore, capturedAt; simpl;
      rewrite open_open; repeat split; auto.
  - unfold bind.
    match goal with
    | |- context [detached (limitCacheSize ?n ?m) ?v] =>
        destruct (detached_limitCacheSize n m v) as (w' & E & Hc & Hf)
    end.
    rewrite E. unfold detached, cache_put. eexists. split; [reflexivity|].
    unfold sameOutsideStore in *. simpl in *. unfold capturedAt.
    rewrite Hc. unfold afterEviction. rewrite open_open.
    repeat split; tauto.
Qed.

Lemma networkFirst_online request cacheName w r :
  server (href (url request)) = Some r ->
  exists w',
    networkFirst request cacheName w = (Ok r, w') /\
    caches w' =
      (if (status r =? 200)%Z
       then capturedAt (put_lands cacheName (href (url request)))
                       cacheName (href (url request)) r (dynamic LIMITS)
                       (caches w)
       else caches w) /\
    console w' = console w /\
    network w' = network w ++ [href (url request)] /\
    constructed w' = constructed w /\
    settled w' = settled w ++ [href (url request)].
Proof.
  intros Hs.
  unfold networkFirst, try_catch, bind, fetch, bind, fetch_begin,
    fetch_settle, fetch_settled. rewrite Hs. cbn [fst snd].
  destruct (status r =? 200)%Z.
  - unfold caches_open, clone.
    match goal with
    | |- context [put_and_limitCacheSize ?l _ ?n ?m (withCaches _ ?v)] =>
        destruct (put_and_limitCacheSize_run l n (href (url request)) r m v)
          as (w' & E & Hc & Hf)
    end.
    rewrite E. unfold ret. eexists. split; [reflexivity|].
    unfold sameOutsideStore in Hf. simpl in *. tauto.
  - unfold ret. eexists. split; [reflexivity|]. simpl. auto.
Qed.

Lemma networkFirst_offline request cacheName w :
  server (href (url request)) = None ->
  exists w',
    networkFirst request cacheName w =
      (Ok match Store.matchAll (href (url request)) (caches w) with
          | Some cached => cached
          | None => mkResponse 503 "Offline"
          end, w') /\
    caches w' = caches w /\
    constructed w' =
      constructed w ++
      match Store.matchAll (href (url request)) (caches w) with
      | Some _ => []
      | None => [mkResponse 503 "Offline"]
      end.
Proof.
  intros Hs.
  unfold networkFirst, try_catch, bind, fetch, bind, fetch_begin,
    fetch_settle, fetch_settled, console_log, caches_match. rewrite Hs.
  cbn [fst snd caches console network constructed unhandled hostCalls
       settled].
  destruct (Store.matchAll (href (url request)) (caches w)).
  - unfold ret. eexists. split; [reflexivity|]. simpl.
    now rewrite app_nil_r.
  - unfold new_Response. eexists. split; [reflexivity|]. now simpl.
Qed.

(** C3. Network-first never rejects.  When the fetch rejects, the
    caller gets the cached copy if there is one and otherwise a
    synthesized response with status 503 and body Offline; a response
    is synthesized exactly when the fetch rejected and no cached copy
    exists, and in every other case the caller gets the network's or
    the cache's response. *)
Theorem networkFirst_offline_fallback request cacheName w :
  exists w',
    networkFirst request cacheName w =
      (Ok match server (href (url request)) with
          | Some networkResponse => networkResponse
          | None =>
              match Store.matchAll (href (url request)) (caches w) with
              | Some cached => cached
              | None => mkResponse 503 "Offline"
              end
          end, w') /\
    constructed w' =
      constructed w ++
      match server (href (url request)),
            Store.matchAll (href (url request)) (caches w) with
      | None, None => [mkResponse 503 "Offline"]
      | _, _ => []
      end.
Proof.
  destruct (server (href (url request))) as [r|] eqn:Hs.
  - destruct (networkFirst_online request cacheName w r Hs)
      as (w' & E & _ & _ & _ & Hc & _).
    exists w'. split; [exact E|]. now rewrite app_nil_r.
  - destruct (networkFirst_offline request cacheName w Hs)
      as (w' & E & _ & Hc).
    exists w'. split; [exact E|]. rewrite Hc.
    now destruct (Store.matchAll (href (url request)) (caches w)).
Qed.

Lemma cacheFirst_hit request cacheName w cached :
  Store.matchAll (href (url request)) (caches w) = Some cached ->
  cacheFirst request cacheName w = (Ok cached, w).
Proof.
  intros H. unfold cacheFirst, try_catch, bind, caches_match.
  now rewrite H.
Qed.

Lemma cacheFirst_miss request cacheName w r :
  Store.matchAll (href (url request)) (caches w) = None ->
  server (href (url request)) = Some r ->
  exists w',
    cacheFirst request cacheName w = (Ok r, w') /\
    network w' = network w ++ [href (url request)] /\
    caches w' =
      if (status r =? 200)%Z
      then Store.update cacheName (Store.put (href (url request)) r)
                        (Store.open cacheName (caches w))
      else caches w.
Proof.
  intros Hm Hs.
  unfold cacheFirst, try_catch, bind, caches_match, fetch, bind,
    fetch_begin, fetch_settle, fetch_settled. rewrite Hm, Hs. cbn [fst snd].
  destruct (status r =? 200)%Z.
  - unfold caches_open, detached, cache_put, clone, ret.
    eexists. split; [reflexivity|]. now simpl.
  - unfold ret. eexists. split; [reflexivity|]. now simpl.
Qed.

(** C2, as the code has it.  Cache-first looks the request up in the
    whole cache storage ([caches.match]), not in the target cache
    only.  On a hit the cached response is returned and nothing else
    happens: no fetch, no write.  On a miss the network is fetched;
    the network response is returned, and a clone of it is stored in
    the target cache exactly when its status is 200, so that the
    target cache then answers the request with it. *)
Theorem cacheFirst_hit_or_fetch request cacheName w :
  (forall cached,
      Store.matchAll (href (url request)) (caches w) = Some cached ->
      cacheFirst request cacheName w = (Ok cached, w)) /\
  (forall r,
      Store.matchAll (href (url request)) (caches w) = None ->
      server (href (url request)) = Some r ->
      exists w',
        cacheFirst request cacheName w = (Ok r, w') /\
        network w' = network w ++ [href (url request)] /\
        if (status r =? 200)%Z
        then spec_targetLookup cacheName (href (url request)) (caches w')
             = Some r
        else caches w' = caches w).
Proof.
  split.
  - intros cached H. now apply cacheFirst_hit.
  - intros r Hm Hs.
    destruct (cacheFirst_miss request cacheName w r Hm Hs)
      as (w' & E & Hn & Hc).
    exists w'. repeat split; try assumption.
    destruct (status r =? 200)%Z; [|exact Hc].
    unfold spec_targetLookup.
    rewrite Hc, lookup_update, lookup_open. simpl.
    rewrite matchEntry_put. now rewrite String.eqb_refl.
Qed.

(** The handler of the pending fetch, run with a response. *)
Lemma revalidated_response request cacheName w r :
  exists w',
    revalidated request cacheName (Some r) w = (Ok r, w') /\
    caches w' =
      (if (status r =? 200)%Z
       then capturedAt (put_lands cacheName (href (url request)))
                       cacheName (href (url request)) r (images LIMITS)
                       (caches w)
       else caches w) /\
    console w' = console w /\
    network w' = network w /\
    constructed w' = constructed w /\
    settled w' = settled w ++ [href (url request)].
Proof.
  clear server location_origin.
  unfold revalidated, try_catch, bind, fetch_settled. cbn [fst snd].
  destruct (status r =? 200)%Z.
  - unfold caches_open, clone.
    match goal with
    | |- context [put_and_limitCacheSize ?l _ ?n ?m (withCaches _ ?v)] =>
        destruct (put_and_limitCacheSize_run l n (href (url request)) r m v)
          as (w' & E & Hc & Hf)
    end.
    rewrite E. unfold ret. eexists. split; [reflexivity|].
    unfold sameOutsideStore in Hf. simpl in *. tauto.
  - unfold ret. eexists. split; [reflexivity|]. simpl. auto.
Qed.

(** The handler of the pending fetch, run with a rejection. *)
Lemma revalidated_rejection request cacheName w :
  exists w',
    revalidated request cacheName None w =
      (Ok (mkResponse 503 "Offline"), w') /\
    caches w' = caches w /\
    network w' = network w /\
    constructed w' = constructed w ++ [mkResponse 503 "Offline"] /\
    settled w' = settled w ++ [href (url request)].
Proof.
  unfold revalidated, try_catch, bind, fetch_settled, console_log,
    new_Response.
  eexists. split; [reflexivity|]. now simpl.
Qed.

Lemma revalidated_settles request cacheName answer w :
  exists w',
    revalidated request cacheName answer w =
      (Ok match answer with
          | Some r => r
          | None => mkResponse 503 "Offline"
          end, w') /\
    caches w' =
      match answer with
      | Some r =>
          if (status r =? 200)%Z
          then capturedAt (put_lands cacheName (href (url request)))
                          cacheName (href (url request)) r (images LIMITS)
                          (caches w)
          else caches w
      | None => caches w
      end /\
    network w' = network w /\
    constructed w' =
      constructed w ++
      match answer with
      | Some _ => []
      | None => [mkResponse 503 "Offline"]
      end /\
    settled w' = settled w ++ [href (url request)].
Proof.
  destruct answer as [r|].
  - destruct (revalidated_response request cacheName w r)
      as (w' & E & Hc & _ & Hn & Hk & Hs).
    exists w'. rewrite app_nil_r. auto.
  - destruct (revalidated_rejection request cacheName w)
      as (w' & E & Hc & Hn & Hk & Hs).
    exists w'. auto.
Qed.

Lemma revalidate_online request cacheName w r :
  server (href (url request)) = Some r ->
  exists w',
    revalidate request cacheName w = (Ok r, w') /\
    caches w' =
      (if (status r =? 200)%Z
       then capturedAt (put_lands cacheName (href (url request)))
                       cacheName (href (url request)) r (images LIMITS)
                       (caches w)
       else caches w) /\
    console w' = console w /\
    constructed w' = constructed w.
Proof.
  intros Hs. unfold revalidate. rewrite Hs.
  destruct (revalidated_response request cacheName w r)
    as (w' & E & Hc & Hl & _ & Hk & _).
  exists w'. auto.
Qed.

(** C4. Stale-while-revalidate.  The call looks the request up, starts
    the fetch and returns with the fetch pending: nothing has settled,
    the caches are as they were, and what the caller is given at once
    is the cached response if there is one, decided without any network
    answer.  Whatever the fetch settles with and whenever it does, what
    is chained to it yields the network response (a synthesized 503 if
    the fetch rejected) and, on a status of 200 only, puts the entry
    and enforces the image limit; until then no cache is written.  The
    caller ends up with the cached response if there was one, whatever
    the network answered, and with the network result (or the 503)
    otherwise. *)
Theorem staleWhileRevalidate_returns_cached_first request cacheName w :
  exists call w1,
    staleWhileRevalidate request cacheName w = (Ok call, w1) /\
    returned call = Store.matchAll (href (url request)) (caches w) /\
    awaiting call = href (url request) /\
    caches w1 = caches w /\
    network w1 = network w ++ [href (url request)] /\
    settled w1 = settled w /\
    (forall answer w2, exists w3,
        fetchPromise call answer w2 =
          (Ok match answer with
              | Some r => r
              | None => mkResponse 503 "Offline"
              end, w3) /\
        caches w3 =
          match answer with
          | Some r =>
              if (status r =? 200)%Z
              then capturedAt (put_lands cacheName (href (url request)))
                              cacheName (href (url request)) r
                              (images LIMITS) (caches w2)
              else caches w2
          | None => caches w2
          end /\
        network w3 = network w2 /\
        constructed w3 =
          constructed w2 ++
          match answer with
          | Some _ => []
          | None => [mkResponse 503 "Offline"]
          end /\
        settled w3 = settled w2 ++ [href (url request)]) /\
    (exists w3,
        settle (staleWhileRevalidate request cacheName) w =
          (Ok match Store.matchAll (href (url request)) (caches w) with
              | Some cached => cached
              | None =>
                  match server (href (url request)) with
                  | Some r => r
                  | None => mkResponse 503 "Offline"
                  end
              end, w3) /\
        settled w3 = settled w ++ [href (url request)]).
Proof.
  unfold settle, staleWhileRevalidate, bind, caches_match, fetch_begin, ret.
  cbn [fst snd returned awaiting fetchPromise].
  do 2 eexists. split; [reflexivity|].
  cbn [returned awaiting fetchPromise caches network settled].
  repeat split.
  - intros answer w2. apply revalidated_settles.
  - match goal with
    | |- context [revalidated request cacheName ?a ?v] =>
        destruct (revalidated_settles request cacheName a v)
          as (w3 & E & _ & _ & _ & Hs)
    end.
    rewrite E. eexists. split; [|exact Hs].
    destruct (Store.matchAll (href (url request)) (caches w)); reflexivity.
Qed.

(** C10, as the code has it.  When the network answers with a status
    other than 200, no strategy writes to a cache or evicts: the
    caches are as before.  Network-first returns that network
    response; cache-first and stale-while-revalidate return it when
    no cached response exists, and the cached response otherwise. *)
Theorem non200_leaves_caches request cacheName w r :
  server (href (url request)) = Some r ->
  status r <> 200%Z ->
  (exists w', networkFirst request cacheName w = (Ok r, w') /\
              caches w' = caches w) /\
  (exists w', cacheFirst request cacheName w =
                (Ok match Store.matchAll (href (url request)) (caches w) with
                    | Some cached => cached
                    | None => r
                    end, w') /\
              caches w' = caches w) /\
  (exists w', settle (staleWhileRevalidate request cacheName) w =
                (Ok match Store.matchAll (href (url request)) (caches w) with
                    | Some cached => cached
                    | None => r
                    end, w') /\
              caches w' = caches w).
Proof.
  intros Hs Hst. apply Z.eqb_neq in Hst. repeat split.
  - destruct (networkFirst_online request cacheName w r Hs)
      as (w' & E & Hc & _).
    rewrite Hst in Hc. eauto.
  - destruct (Store.matchAll (href (url request)) (caches w)) as [c|] eqn:Hm.
    + exists w. split; [now apply cacheFirst_hit | reflexivity].
    + destruct (cacheFirst_miss request cacheName w r Hm Hs)
        as (w' & E & _ & Hc).
      rewrite Hst in Hc. eauto.
  - unfold settle, staleWhileRevalidate, bind, caches_match, fetch_begin, ret.
    cbn [fst snd returned awaiting fetchPromise]. rewrite Hs.
    match goal with
    | |- context [revalidated request cacheName _ ?v] =>
        destruct (revalidated_response request cacheName v r)
          as (w3 & E & Hc & _)
    end.
    rewrite E, Hst in *. exists w3. split; [|exact Hc].
    now destruct (Store.matchAll (href (url request)) (caches w)).
Qed.

Lemma matchEntry_removeAll k ks c :
  Store.matchEntry k (removeAll ks c) =
  if existsb (String.eqb k) ks then None else Store.matchEntry k c.
Proof.
  unfold removeAll. induction c as [|[k0 r0] c IH]; simpl.
  - now destruct (existsb (String.eqb k) ks).
  - destruct (existsb (String.eqb k0) ks) eqn:E0; simpl; rewrite IH.
    + destruct (existsb (String.eqb k) ks) eqn:E; [reflexivity|].
      destruct (k0 =? k) eqn:Ek; [|reflexivity].
      apply String.eqb_eq in Ek. subst k0. congruence.
    + destruct (k0 =? k) eqn:Ek; [|reflexivity].
      apply String.eqb_eq in Ek. subst k0. now rewrite E0.
Qed.

(** C9, as the code has it.  The eviction pass neither catches nor
    logs a deletion that rejects: the pass itself rejects, and the
    console is as before.  Every deletion of the pass is still
    started, so each key it set out to delete whose own deletion does
    not reject is gone afterwards; and a strategy that starts the
    pass does not await it, so it still answers its caller with the
    network response. *)
Theorem eviction_failure_is_silent cacheName maxItems w :
  exists outcome w',
    limitCacheSize cacheName maxItems w = (outcome, w') /\
    outcome =
      (if existsb (delete_rejects cacheName)
            (toDelete maxItems
               (cachedKeys cacheName (Store.open cacheName (caches w))))
       then Throw "cache.delete failed"
       else Ok tt) /\
    console w' = console w /\
    (forall k,
        In k (toDelete maxItems
                (cachedKeys cacheName (Store.open cacheName (caches w)))) ->
        delete_rejects cacheName k = false ->
        spec_targetLookup cacheName k (caches w') = None) /\
    (forall request r,
        server (href (url request)) = Some r ->
        fst (networkFirst request cacheName w) = Ok r /\
        fst (revalidate request cacheName w) = Ok r).
Proof.
  exists (fst (limitCacheSize cacheName maxItems w)),
         (snd (limitCacheSize cacheName maxItems w)).
  split; [apply surjective_pairing|].
  split; [apply limitCacheSize_result|].
  split; [apply limitCacheSize_frame|].
  split.
  - intros k Hin Hk. rewrite limitCacheSize_world.
    cbn [caches withCaches]. unfold spec_targetLookup, afterEviction.
    rewrite lookup_update, lookup_open. simpl.
    rewrite matchEntry_removeAll.
    assert (H : existsb (String.eqb k)
                  (carriedOut cacheName
                     (toDelete maxItems
                        (cachedKeys cacheName
                           (Store.open cacheName (caches w))))) = true).
    { apply existsb_exists. exists k. split; [|apply String.eqb_refl].
      unfold carriedOut. apply filter_In. split; [exact Hin|].
      now rewrite Hk. }
    now rewrite H.
  - intros request r Hs. split.
    + destruct (networkFirst_online request cacheName w r Hs) as (w' & E & _).
      now rewrite E.
    + destruct (revalidate_online request cacheName w r Hs) as (w' & E & _).
      now rewrite E.
Qed.

(** ** Purging namespaces *)

Lemma prefix_iff p s :
  prefix p s = true <-> exists v, s = (p ++ v)%string.
Proof.
  revert s. induction p as [|a p IH]; intros s.
  - split; [intros _; now exists s | intros _; now destruct s].
  - destruct s as [|b s]; simpl.
    + split; [discriminate | intros [v Hv]; discriminate].
    + destruct (Ascii.ascii_dec a b) as [->|Hab].
      * rewrite IH. split; intros [v Hv]; exists v; congruence.
      * split; [discriminate | intros [v Hv]; congruence].
Qed.

Lemma append_inj p v v' : (p ++ v = p ++ v')%string -> v = v'.
Proof.
  induction p as [|a p IH]; simpl; intros H; [exact H|].
  apply IH. congruence.
Qed.

(** The two filters of the activate handler select the stale
    namespaces of the specification. *)
Lemma stale_iff cacheName :
  has_role_prefix cacheName && not_current cacheName = true <->
  spec_stale cacheName.
Proof.
  clear put_lands.
  clear location_origin server delete_rejects.
  unfold has_role_prefix, not_current, spec_stale, spec_roles,
    STATIC_CACHE, DYNAMIC_CACHE, IMAGE_CACHE.
  rewrite andb_true_iff, !orb_true_iff, !andb_true_iff, !negb_true_iff,
    !String.eqb_neq, !prefix_iff.
  split.
  - intros [[[[v Hv]|[v Hv]]|[v Hv]] [[H1 H2] H3]]; subst cacheName.
    + exists "static-", v. simpl In. intuition congruence.
    + exists "dynamic-", v. simpl In. intuition congruence.
    + exists "images-", v. simpl In. intuition congruence.
  - intros (role & v & Hrole & -> & Hv).
    simpl in Hrole. destruct Hrole as [<-|[<-|[<-|[]]]].
    + split; [left; left; now exists v|].
      repeat split; intros H; [apply append_inj in H; auto | |];
        simpl in H; discriminate.
    + split; [left; right; now exists v|].
      repeat split; intros H; [|apply append_inj in H; auto|];
        simpl in H; discriminate.
    + split; [right; now exists v|].
      repeat split; intros H; [| |apply append_inj in H; auto];
        simpl in H; discriminate.
Qed.

Lemma purged_nil s : purged [] s = s.
Proof. unfold purged. simpl. apply filter_true. Qed.

Lemma purged_delete n names s :
  purged names (Store.delete n s) = purged (n :: names) s.
Proof.
  unfold purged, Store.delete.
  induction s as [|[m c] s IH]; simpl; [reflexivity|].
  destruct (m =? n); simpl; [exact IH|].
  destruct (existsb (String.eqb m) names); simpl; now rewrite IH.
Qed.

Lemma purged_In names s c :
  In c (purged names s) <-> In c s /\ ~ In (fst c) names.
Proof.
  unfold purged. rewrite filter_In, negb_true_iff.
  rewrite <- not_true_iff_false, existsb_exists.
  split; intros [Hc Hn]; (split; [exact Hc|]).
  - intros Hin. apply Hn. exists (fst c). split; [exact Hin|].
    apply String.eqb_refl.
  - intros [n [Hin He]]. apply String.eqb_eq in He. now subst n.
Qed.

(** Deleting, one after the other, the caches of a list of names. *)
Lemma promise_all_deletes (f : string -> M bool) :
  (forall n w, exists b w1,
      f n w = (Ok b, w1) /\ caches w1 = Store.delete n (caches w)) ->
  forall names w, exists bs w',
      promise_all f names w = (Ok bs, w') /\
      caches w' = purged names (caches w).
Proof.
  intros Hf names. induction names as [|n names IH]; intros w; simpl.
  - exists [], w. now rewrite purged_nil.
  - destruct (Hf n w) as (b & w1 & E1 & H1). rewrite E1.
    destruct (IH w1) as (bs & w' & E & H). rewrite E.
    exists (b :: bs), w'. split; [reflexivity|].
    now rewrite H, H1, purged_delete.
Qed.

Lemma caches_delete_deletes n w :
  exists b w1,
    caches_delete n w = (Ok b, w1) /\ caches w1 = Store.delete n (caches w).
Proof. unfold caches_delete. do 2 eexists. split; reflexivity. Qed.

(** C6. On activation exactly the stale namespaces are deleted: a
    cache is there afterwards if and only if it was there before and
    its name is not a known role prefix (static-, dynamic-, images-)
    followed by a version other than the current one.  Caches without
    such a prefix, and the current ones, stay as they are. *)
Theorem activate_purges_stale w :
  exists w',
    activate w = (Ok tt, w') /\
    (forall c, In c (caches w') <->
               In c (caches w) /\ ~ spec_stale (fst c)).
Proof.
  unfold activate, bind, console_log, caches_keys.
  cbn [fst snd caches].
  match goal with
  | |- context [promise_all ?f ?l ?v] =>
      destruct (promise_all_deletes f) with (names := l) (w := v)
        as (bs & w1 & E & H)
  end.
  { intros n v. unfold bind, console_log. cbn [fst snd].
    do 2 eexists. split; reflexivity. }
  rewrite E. unfold host_call. eexists. split; [reflexivity|].
  cbn [caches] in *. intros c. rewrite H, purged_In.
  rewrite !filter_In, <- stale_iff, andb_true_iff.
  split; intros [Hc Hn]; (split; [exact Hc|]).
  - intros [Hp Hnc]. apply Hn. repeat split; try assumption.
    unfold Store.names. now apply in_map.
  - intros [[_ Hp] Hnc]. now apply Hn.
Qed.

Lemma purged_all s : purged (Store.names s) s = [].
Proof.
  unfold purged.
  assert (H : forall (f : string * Cache -> bool) l,
             (forall x, In x l -> f x = false) -> filter f l = []).
  { intros f l. induction l as [|x l IH]; simpl; intros Hf; [reflexivity|].
    rewrite (Hf x (or_introl eq_refl)). apply IH. intros y Hy.
    apply Hf. now right. }
  apply H. intros c Hc. apply negb_false_iff, existsb_exists.
  exists (fst c). split; [now apply in_map | apply String.eqb_refl].
Qed.

(** C7, as the code has it.  On a CLEAR_CACHE message every cache of
    the storage is deleted, whatever its name: the namespaces with a
    role prefix of any version, and the caches outside those prefixes
    as well.  Any other message leaves the caches as they are. *)
Theorem clear_cache_deletes_every_cache w :
  (exists w', message (Some "CLEAR_CACHE") w = (Ok tt, w') /\
              caches w' = []) /\
  (forall data, data <> Some "CLEAR_CACHE" ->
                exists w', message data w = (Ok tt, w') /\
                           caches w' = caches w).
Proof.
  split.
  - unfold message, bind, console_log, caches_keys, ret.
    cbn [fst snd caches String.eqb Ascii.eqb Bool.eqb].
    match goal with
    | |- context [promise_all caches_delete ?l ?v] =>
        destruct (promise_all_deletes caches_delete caches_delete_deletes l v)
          as (bs & w1 & E & H)
    end.
    rewrite E. exists w1. split; [reflexivity|].
    rewrite H. apply purged_all.
  - intros data Hd. unfold message, bind, console_log.
    assert (Hc : match data with
                 | Some t => t =? "CLEAR_CACHE"
                 | None => false
                 end = false).
    { destruct data as [t|]; [|reflexivity].
      apply String.eqb_neq. congruence. }
    rewrite Hc.
    destruct (match data with
              | Some t => t =? "SKIP_WAITING"
              | None => false
              end); unfold host_call, ret; eexists; split; reflexivity.
Qed.

(** ** Installation *)

Lemma fetch_all_run paths w :
  fetch_all paths w =
  (Ok (fetchedAll paths),
   mkWorld (caches w) (console w)
           (network w ++ map (fun p => (location_origin ++ p)%string) paths)
           (constructed w) (unhandled w) (hostCalls w)
           (settled w ++ map (fun p => (location_origin ++ p)%string) paths)).
Proof.
  unfold fetch_all, fetchedAll. revert w.
  induction paths as [|p paths IH]; intros w; simpl.
  - unfold ret. rewrite !app_nil_r. now destruct w.
  - unfold bind at 1, fetch_begin at 1, try_catch at 1, bind at 1,
      fetch_settle at 1, fetch_settled at 1.
    cbn [fst snd caches console network constructed unhandled hostCalls
         settled].
    destruct (server (location_origin ++ p)); unfold ret at 1;
      rewrite IH;
      cbn [caches console network constructed unhandled hostCalls settled];
      now rewrite <- !app_assoc.
Qed.

Lemma put_all_run cache rs w :
  put_all cache rs w = (Ok tt, withCaches (Store.update cache (putAll rs)) w).
Proof.
  revert w. induction rs as [|[k [r|]] rs IH]; intros w; simpl.
  - unfold ret, withCaches. rewrite update_id. now destruct w.
  - unfold bind, cache_put. rewrite IH. unfold withCaches. simpl.
    now rewrite update_update.
  - apply IH.
Qed.

Lemma forallb_fetchedAll paths :
  forallb (fun kr => accepted (snd kr)) (fetchedAll paths) =
  forallb (fun p => accepted (server (location_origin ++ p))) paths.
Proof.
  unfold fetchedAll. induction paths as [|p paths IH]; simpl; congruence.
Qed.

Lemma matchEntry_putAll_other k rs c :
  ~ In k (map fst rs) ->
  Store.matchEntry k (putAll rs c) = Store.matchEntry k c.
Proof.
  clear put_lands CACHE_VERSION.
  clear server location_origin delete_rejects.
  revert c. induction rs as [|[k0 [r0|]] rs IH]; intros c Hk; simpl in *.
  - reflexivity.
  - rewrite IH by tauto. rewrite matchEntry_put.
    destruct (k0 =? k) eqn:E; [|reflexivity].
    apply String.eqb_eq in E. tauto.
  - apply IH. tauto.
Qed.

(** When every fetch of [addAll] was accepted, the cache answers each
    fetched URL with what the network answered for it. *)
Lemma matchEntry_putAll paths c p :
  forallb (fun p => accepted (server (location_origin ++ p))) paths = true ->
  In p paths ->
  Store.matchEntry (location_origin ++ p) (putAll (fetchedAll paths) c) =
  server (location_origin ++ p).
Proof.
  revert c. induction paths as [|q paths IH]; intros c Hall Hin;
    [destruct Hin|].
  simpl in Hall. apply andb_true_iff in Hall. destruct Hall as [Hq Hall].
  simpl. destruct (server (location_origin ++ q)) as [r|] eqn:Hs;
    [|discriminate].
  destruct (in_dec string_dec (location_origin ++ p)%string
                   (map fst (fetchedAll paths))) as [Hlater|Hlater].
  - unfold fetchedAll in Hlater. rewrite map_map in Hlater. simpl in Hlater.
    apply in_map_iff in Hlater. destruct Hlater as (p' & Hp' & Hin').
    apply append_inj in Hp'. subst p'. now apply IH.
  - rewrite matchEntry_putAll_other by exact Hlater.
    destruct Hin as [->|Hin].
    + rewrite matchEntry_put, String.eqb_refl. now rewrite Hs.
    + exfalso. apply Hlater. unfold fetchedAll. rewrite map_map. simpl.
      now apply in_map.
Qed.

Lemma cache_addAll_run cache paths w :
  cache_addAll cache paths w =
  let w1 := mkWorld (caches w) (console w)
              (network w ++ map (fun p => (location_origin ++ p)%string) paths)
              (constructed w) (unhandled w) (hostCalls w)
              (settled w ++
               map (fun p => (location_origin ++ p)%string) paths) in
  if forallb (fun p => accepted (server (location_origin ++ p))) paths
  then (Ok tt, withCaches (Store.update cache (putAll (fetchedAll paths))) w1)
  else (Throw addAllFailure, w1).
Proof.
  unfold cache_addAll, bind. rewrite fetch_all_run, forallb_fetchedAll.
  cbv zeta.
  destruct (forallb _ paths); [apply put_all_run | reflexivity].
Qed.

(** C8, as the code has it.  Installation never fails: a rejection of
    the pre-population is caught and logged.  The pre-population is
    one [addAll] of the manifest, which stores all or nothing: when
    every asset is fetched with an ok status (200 to 299) other than
    206, the static cache then answers each of them with the fetched
    response; when one asset fails (its fetch rejects, or its status
    is not ok, or is 206), nothing is stored for any asset and a line
    starting with [[SW] Failed to cache static assets:] is logged. *)
Theorem install_all_or_nothing w :
  exists w',
    install w = (Ok tt, w') /\
    if forallb (fun p =>
                  match server (location_origin ++ p) with
                  | Some r =>
                      ((200 <=? status r) && (status r <=? 299) &&
                       negb (status r =? 206))%Z
                  | None => false
                  end)
               STATIC_ASSETS
    then forall p, In p STATIC_ASSETS ->
           spec_targetLookup STATIC_CACHE (location_origin ++ p) (caches w')
           = server (location_origin ++ p)
    else caches w' = Store.open STATIC_CACHE (caches w) /\
         exists error,
           console w' =
             console w ++
             [ "[SW] Installing service worker..."
             ; "[SW] Precache manifest:"
             ; "[SW] Caching static assets"
             ; ("[SW] Failed to cache static assets: " ++ error)%string ].
Proof.
  change (fun p => match server (location_origin ++ p) with
                   | Some r =>
                       ((200 <=? status r) && (status r <=? 299) &&
                        negb (status r =? 206))%Z
                   | None => false
                   end)
    with (fun p => accepted (server (location_origin ++ p))).
  unfold install, install_work, try_catch.
  unfold bind at 1 2 3, console_log at 1 2. cbn [fst snd].
  unfold bind at 1 2, caches_open, console_log at 1. cbn [fst snd].
  rewrite cache_addAll_run. cbv zeta.
  destruct (forallb (fun p => accepted (server (location_origin ++ p)))
                    STATIC_ASSETS) eqn:Hall.
  - unfold host_call. eexists. split; [reflexivity|].
    intros p Hp. cbn [caches withCaches]. unfold spec_targetLookup.
    rewrite lookup_update, lookup_open. cbn [option_map].
    now apply matchEntry_putAll.
  - unfold console_log, host_call. eexists. split; [reflexivity|].
    cbn [caches console withCaches]. split; [reflexivity|].
    exists addAllFailure. rewrite <- !app_assoc. reflexivity.
Qed.

(** ** More facts about the store *)

Lemma names_update name f s :
  Store.names (Store.update name f s) = Store.names s.
Proof.
  unfold Store.names, Store.update. rewrite map_map. apply map_ext.
  intros [n c]. simpl. now destruct (n =? name).
Qed.

Lemma has_In name s : Store.has name s = true <-> In name (Store.names s).
Proof.
  unfold Store.has, Store.names. rewrite existsb_exists, in_map_iff.
  split.
  - intros [c [Hc He]]. apply String.eqb_eq in He. now exists c.
  - intros [c [He Hc]]. exists c. split; [exact Hc|].
    now apply String.eqb_eq.
Qed.

(** Cache names stay pairwise distinct when a cache is opened. *)
Lemma open_NoDup name s :
  NoDup (Store.names s) -> NoDup (Store.names (Store.open name s)).
Proof.
  intros H. unfold Store.open. destruct (Store.has name s) eqn:E; [exact H|].
  unfold Store.names. rewrite map_app. simpl. apply NoDup_app.
  - exact H.
  - constructor; [intros [] | constructor].
  - intros x Hx [<-|[]]. apply has_In in Hx. congruence.
Qed.

Lemma In_update_other name f s n c :
  n <> name -> In (n, c) (Store.update name f s) -> In (n, c) s.
Proof.
  intros Hn Hin. unfold Store.update in Hin. apply in_map_iff in Hin.
  destruct Hin as ([m d] & He & Hin). simpl in He.
  destruct (m =? name) eqn:E.
  - apply String.eqb_eq in E. congruence.
  - now rewrite <- He.
Qed.

Lemma heldOnlyBy_update name key f s :
  heldOnlyBy name key s -> heldOnlyBy name key (Store.update name f s).
Proof.
  intros H n c Hin Hn. apply (H n c); [|exact Hn].
  now apply In_update_other with (name := name) (f := f).
Qed.

Lemma heldOnlyBy_open name key s :
  heldOnlyBy name key s -> heldOnlyBy name key (Store.open name s).
Proof.
  intros H n c Hin Hn. unfold Store.open in Hin.
  destruct (Store.has name s); [now apply (H n c)|].
  apply in_app_or in Hin. destruct Hin as [Hin|[He|[]]].
  - now apply (H n c).
  - congruence.
Qed.

Lemma matchAll_none key s :
  (forall n c, In (n, c) s -> Store.matchEntry key c = None) ->
  Store.matchAll key s = None.
Proof.
  induction s as [|[n c] s IH]; intros H; simpl; [reflexivity|].
  rewrite (H n c (or_introl eq_refl)). apply IH.
  intros m d Hin. apply (H m d). now right.
Qed.

(** With pairwise distinct cache names, a key that only one cache can
    hold is found by [caches.match] exactly as that cache has it. *)
Lemma matchAll_heldOnlyBy name key s :
  NoDup (Store.names s) ->
  heldOnlyBy name key s ->
  Store.matchAll key s = spec_targetLookup name key s.
Proof.
  unfold spec_targetLookup.
  induction s as [|[n c] s IH]; intros Hnd Hheld; simpl; [reflexivity|].
  simpl in Hnd. inversion Hnd as [|? ? Hn Hs]; subst.
  destruct (n =? name) eqn:E.
  - apply String.eqb_eq in E. subst n.
    destruct (Store.matchEntry key c); [reflexivity|].
    apply matchAll_none. intros m d Hin. apply (Hheld m d); [now right|].
    intros ->. apply Hn. unfold Store.names.
    change name with (fst (name, d)). now apply in_map.
  - apply String.eqb_neq in E.
    rewrite (Hheld n c (or_introl eq_refl) E). apply IH; [exact Hs|].
    intros m d Hin. apply (Hheld m d). now right.
Qed.

Lemma keys_put k r c :
  Store.keys (Store.put k r c) = Store.keys (Store.remove k c) ++ [k].
Proof. unfold Store.put, Store.keys. now rewrite map_app. Qed.

Lemma notin_keys_remove k c : ~ In k (Store.keys (Store.remove k c)).
Proof.
  rewrite keys_remove, filter_In. intros [_ H].
  now rewrite String.eqb_refl in H.
Qed.

Lemma In_firstn {A} (x : A) n l : In x (firstn n l) -> In x l.
Proof.
  intros H. rewrite <- (firstn_skipn n l). apply in_or_app. now left.
Qed.

Lemma In_toDelete k maxItems keys :
  In k (toDelete maxItems keys) ->
  In k (firstn (length keys - maxItems) keys).
Proof.
  unfold toDelete. now destruct (maxItems <? length keys)%nat.
Qed.

(** With a limit of at least one, the key that was put last is not
    among the keys an eviction pass sets out to delete. *)
Lemma newest_not_evicted k r c maxItems :
  1 <= maxItems ->
  ~ In k (toDelete maxItems (Store.keys (Store.put k r c))).
Proof.
  intros Hm Hin. apply In_toDelete in Hin.
  rewrite keys_put in Hin. rewrite length_app in Hin. simpl length in Hin.
  rewrite firstn_app in Hin.
  replace (length (Store.keys (Store.remove k c)) + 1 - maxItems
           - length (Store.keys (Store.remove k c))) with 0 in Hin by lia.
  simpl in Hin. rewrite app_nil_r in Hin.
  apply In_firstn in Hin. now apply notin_keys_remove in Hin.
Qed.

Lemma filter_length_mono {A} (f g : A -> bool) l :
  (forall x, f x = true -> g x = true) ->
  length (filter f l) <= length (filter g l).
Proof.
  intros H. induction l as [|x l IH]; simpl; [lia|].
  destruct (f x) eqn:E.
  - rewrite (H x E). simpl. lia.
  - destruct (g x); simpl; lia.
Qed.

(** Removing the first [d] keys of a cache removes at least [d]
    entries, also when a key occurs more than once. *)
Lemma removeAll_oldest_length d c :
  length (removeAll (firstn d (Store.keys c)) c) <= length c - d.
Proof.
  revert d. induction c as [|[k r] c IH]; intros d.
  - now destruct d.
  - destruct d as [|d]; [rewrite removeAll_nil; simpl; lia|].
    simpl firstn. unfold removeAll. simpl filter.
    rewrite String.eqb_refl. simpl.
    etransitivity; [|apply (IH d)].
    unfold removeAll. apply filter_length_mono.
    intros [k0 r0]. simpl. destruct (k0 =? k); [discriminate | auto].
Qed.

(** ** Capturing a response *)

Lemma capturedAt_shape landing cacheName key r maxItems s :
  exists f,
    capturedAt landing cacheName key r maxItems s =
    Store.update cacheName f (Store.open cacheName s).
Proof.
  destruct landing; unfold capturedAt, afterEviction;
    rewrite ?open_update, ?open_open, ?update_update;
    eexists; reflexivity.
Qed.

Lemma lookup_capturedAt landing cacheName key r maxItems s :
  Store.lookup cacheName (capturedAt landing cacheName key r maxItems s) =
  Some (capturedCache landing cacheName key r maxItems
          (contentOf cacheName s)).
Proof.
  destruct landing;
    unfold capturedAt, capturedCache, afterEviction, cachedKeys, contentOf;
    rewrite ?open_update, ?open_open, ?lookup_update, ?lookup_open;
    cbn [option_map];
    rewrite ?lookup_update, ?lookup_open; reflexivity.
Qed.

Lemma lookup_capturedAt_other n landing cacheName key r maxItems s :
  n <> cacheName ->
  Store.lookup n (capturedAt landing cacheName key r maxItems s)
  = Store.lookup n s.
Proof.
  intros Hn.
  destruct (capturedAt_shape landing cacheName key r maxItems s) as [f E].
  rewrite E, lookup_update_other by exact Hn.
  now apply lookup_open_other.
Qed.

Lemma notin_carriedOut k cacheName ks :
  ~ In k ks -> existsb (String.eqb k) (carriedOut cacheName ks) = false.
Proof.
  clear server location_origin put_lands.
  intros H. apply not_true_iff_false. intros E.
  apply existsb_exists in E. destruct E as [x [Hx He]].
  apply String.eqb_eq in He. subst x. unfold carriedOut in Hx.
  apply filter_In in Hx. tauto.
Qed.

Lemma existsb_carriedOut k cacheName ks :
  existsb (String.eqb k) (carriedOut cacheName ks) =
  existsb (String.eqb k) ks && negb (delete_rejects cacheName k).
Proof.
  unfold carriedOut. induction ks as [|k0 ks IH]; [reflexivity|].
  simpl. destruct (k =? k0) eqn:E.
  - apply String.eqb_eq in E. subst k0.
    destruct (delete_rejects cacheName k) eqn:D; simpl.
    + rewrite IH. apply andb_false_r.
    + now rewrite String.eqb_refl.
  - destruct (delete_rejects cacheName k0); simpl; [exact IH|].
    now rewrite E.
Qed.

(** The entry that was just captured is in the target cache, whatever
    else the eviction pass deleted and whichever deletions failed,
    unless the put was overtaken by a pass that went on to delete its
    key. *)
Lemma capturedAt_holds landing cacheName key r maxItems s :
  1 <= maxItems ->
  spec_targetLookup cacheName key
    (capturedAt landing cacheName key r maxItems s) =
  if overtaken landing cacheName key maxItems s &&
     negb (delete_rejects cacheName key)
  then None else Some r.
Proof.
  intros Hm. unfold spec_targetLookup. rewrite lookup_capturedAt.
  destruct landing; unfold capturedCache, overtaken; cbn [andb].
  - rewrite matchEntry_removeAll, notin_carriedOut.
    + rewrite matchEntry_put. now rewrite String.eqb_refl.
    + now apply newest_not_evicted.
  - rewrite matchEntry_removeAll, existsb_carriedOut.
    unfold cachedKeys, contentOf. rewrite lookup_open.
    rewrite matchEntry_put, String.eqb_refl. reflexivity.
  - rewrite matchEntry_put. now rewrite String.eqb_refl.
Qed.

Lemma capturedAt_matchAll landing cacheName key r maxItems s :
  1 <= maxItems ->
  NoDup (Store.names s) ->
  heldOnlyBy cacheName key s ->
  Store.matchAll key (capturedAt landing cacheName key r maxItems s) =
  if overtaken landing cacheName key maxItems s &&
     negb (delete_rejects cacheName key)
  then None else Some r.
Proof.
  intros Hm Hnd Hheld.
  rewrite (matchAll_heldOnlyBy cacheName).
  - now apply capturedAt_holds.
  - destruct (capturedAt_shape landing cacheName key r maxItems s) as [f E].
    rewrite E, names_update. now apply open_NoDup.
  - destruct (capturedAt_shape landing cacheName key r maxItems s) as [f E].
    rewrite E. now apply heldOnlyBy_update, heldOnlyBy_open.
Qed.

Lemma toDelete_within maxItems keys :
  length keys <= maxItems -> toDelete maxItems keys = [].
Proof.
  intros H. unfold toDelete. apply Nat.ltb_ge in H. now rewrite H.
Qed.

Lemma evicted_length cacheName maxItems c :
  (forall k, delete_rejects cacheName k = false) ->
  length (removeAll (carriedOut cacheName (toDelete maxItems (Store.keys c))) c)
  <= maxItems.
Proof.
  intros Hdel. rewrite (proj1 (carriedOut_all cacheName _ Hdel)).
  unfold toDelete. unfold Store.keys at 1 2. rewrite length_map.
  destruct (maxItems <? length c)%nat eqn:E.
  - apply Nat.ltb_lt in E.
    etransitivity; [apply removeAll_oldest_length|]. lia.
  - apply Nat.ltb_ge in E. now rewrite removeAll_nil.
Qed.

Lemma remove_length k c : length (Store.remove k c) <= length c.
Proof. unfold Store.remove. apply filter_length_le. Qed.

Lemma removeAll_remove_length ks k c :
  length (removeAll ks (Store.remove k c)) <= length (removeAll ks c).
Proof.
  rewrite removeAll_remove. unfold removeAll. apply filter_length_mono.
  intros [k0 r0]. simpl. destruct (k0 =? k); [discriminate | auto].
Qed.

(** With deletions that succeed, a capture leaves the target cache
    within its limit when the put landed before the pass read the
    keys, and with at most one entry more otherwise. *)
Lemma capturedCache_length landing cacheName key r maxItems c :
  (forall k, delete_rejects cacheName k = false) ->
  length (capturedCache landing cacheName key r maxItems c) <=
  match landing with
  | BeforeKeysRead => maxItems
  | _ => maxItems + 1
  end.
Proof.
  intros Hdel. destruct landing; unfold capturedCache.
  - now apply evicted_length.
  - unfold Store.put, removeAll. rewrite filter_app, length_app.
    fold (removeAll (carriedOut cacheName
                       (toDelete maxItems (Store.keys c)))
                    (Store.remove key c)).
    pose proof (removeAll_remove_length
                  (carriedOut cacheName (toDelete maxItems (Store.keys c)))
                  key c).
    pose proof (evicted_length cacheName maxItems c Hdel).
    pose proof (filter_length_le
                  (fun e : string * Response =>
                     negb (existsb (String.eqb (fst e))
                             (carriedOut cacheName
                                (toDelete maxItems (Store.keys c)))))
                  [(key, r)]).
    simpl length in *. lia.
  - unfold Store.put. rewrite length_app. simpl length.
    pose proof (remove_length key
                  (removeAll (carriedOut cacheName
                                (toDelete maxItems (Store.keys c))) c)).
    pose proof (evicted_length cacheName maxItems c Hdel). lia.
Qed.

Lemma remove_absent k c : ~ In k (Store.keys c) -> Store.remove k c = c.
Proof.
  clear. intros H. unfold Store.remove.
  induction c as [|[k0 r0] c IH]; simpl in *; [reflexivity|].
  destruct (k0 =? k) eqn:E.
  - apply String.eqb_eq in E. tauto.
  - simpl. f_equal. apply IH. tauto.
Qed.

(** A cache that is exactly full and gets a new key ends up one over
    its limit when the put did not land before the key read: the pass
    saw nothing to delete. *)
Lemma capturedCache_full landing cacheName key r maxItems c :
  length c = maxItems ->
  ~ In key (Store.keys c) ->
  landing <> BeforeKeysRead ->
  capturedCache landing cacheName key r maxItems c = c ++ [(key, r)].
Proof.
  intros Hlen Hk Hl.
  assert (Htd : toDelete maxItems (Store.keys c) = []).
  { apply toDelete_within. unfold Store.keys. rewrite length_map. lia. }
  destruct landing; [congruence| |]; unfold capturedCache;
    rewrite Htd; unfold carriedOut; simpl filter;
    rewrite removeAll_nil; unfold Store.put;
    now rewrite remove_absent.
Qed.

(** ** The strategies: failure paths, frames and bounds *)

Lemma cacheFirst_offline request cacheName w :
  Store.matchAll (href (url request)) (caches w) = None ->
  server (href (url request)) = None ->
  exists w',
    cacheFirst request cacheName w =
      (Ok match Store.matchAll (location_origin ++ "/offline.html") (caches w)
          with
          | Some offline => offline
          | None => mkResponse 503 "Offline"
          end, w') /\
    caches w' = caches w /\
    network w' = network w ++ [href (url request)] /\
    console w' = console w ++ ["[SW] Cache-first failed: Failed to fetch"] /\
    constructed w' =
      constructed w ++
      match Store.matchAll (location_origin ++ "/offline.html") (caches w) with
      | Some _ => []
      | None => [mkResponse 503 "Offline"]
      end.
Proof.
  intros Hm Hs.
  unfold cacheFirst, try_catch, bind, caches_match, fetch, bind, fetch_begin,
    fetch_settle, fetch_settled, console_log. rewrite Hm, Hs.
  cbn [fst snd caches console network constructed unhandled hostCalls
       settled].
  destruct (Store.matchAll (location_origin ++ "/offline.html") (caches w)).
  - unfold ret. eexists. split; [reflexivity|]. simpl.
    now rewrite app_nil_r.
  - unfold new_Response. eexists. split; [reflexivity|]. now simpl.
Qed.

(** X1. Cache-first on a miss with the network down does not reject:
    it logs the failure and answers with the cached /offline.html of
    the worker's origin if some cache holds it, and with a synthesized
    503 Offline otherwise; the caches are left as they were. *)
Theorem cacheFirst_offline_page request cacheName w :
  Store.matchAll (href (url request)) (caches w) = None ->
  server (href (url request)) = None ->
  exists w',
    cacheFirst request cacheName w =
      (Ok match Store.matchAll (location_origin ++ "/offline.html") (caches w)
          with
          | Some offline => offline
          | None => mkResponse 503 "Offline"
          end, w') /\
    caches w' = caches w /\
    console w' = console w ++ ["[SW] Cache-first failed: Failed to fetch"].
Proof.
  intros Hm Hs.
  destruct (cacheFirst_offline request cacheName w Hm Hs)
    as (w' & E & Hc & _ & Hl & _).
  exists w'. auto.
Qed.

(** What each strategy leaves in the caches, in every case. *)
Lemma cacheFirst_caches request cacheName w :
  exists response w',
    cacheFirst request cacheName w = (Ok response, w') /\
    caches w' =
      match Store.matchAll (href (url request)) (caches w),
            server (href (url request)) with
      | None, Some r =>
          if (status r =? 200)%Z
          then Store.update cacheName (Store.put (href (url request)) r)
                            (Store.open cacheName (caches w))
          else caches w
      | _, _ => caches w
      end.
Proof.
  destruct (Store.matchAll (href (url request)) (caches w)) as [c|] eqn:Hm.
  - exists c, w. split; [now apply cacheFirst_hit | reflexivity].
  - destruct (server (href (url request))) as [r|] eqn:Hs.
    + destruct (cacheFirst_miss request cacheName w r Hm Hs)
        as (w' & E & _ & Hc). eauto.
    + destruct (cacheFirst_offline request cacheName w Hm Hs)
        as (w' & E & Hc & _). eauto.
Qed.

Lemma networkFirst_caches request cacheName w :
  exists response w',
    networkFirst request cacheName w = (Ok response, w') /\
    caches w' =
      match server (href (url request)) with
      | Some r =>
          if (status r =? 200)%Z
          then capturedAt (put_lands cacheName (href (url request)))
                          cacheName (href (url request)) r (dynamic LIMITS)
                          (caches w)
          else caches w
      | None => caches w
      end.
Proof.
  destruct (server (href (url request))) as [r|] eqn:Hs.
  - destruct (networkFirst_online request cacheName w r Hs)
      as (w' & E & Hc & _). eauto.
  - destruct (networkFirst_offline request cacheName w Hs)
      as (w' & E & Hc & _). eauto.
Qed.

Lemma settle_caches request cacheName w :
  exists response w',
    settle (staleWhileRevalidate request cacheName) w = (Ok response, w') /\
    caches w' =
      match server (href (url request)) with
      | Some r =>
          if (status r =? 200)%Z
          then capturedAt (put_lands cacheName (href (url request)))
                          cacheName (href (url request)) r (images LIMITS)
                          (caches w)
          else caches w
      | None => caches w
      end.
Proof.
  unfold settle, staleWhileRevalidate, bind, caches_match, fetch_begin, ret.
  cbn [fst snd returned awaiting fetchPromise].
  match goal with
  | |- context [revalidated request cacheName ?a ?v] =>
      destruct (revalidated_settles request cacheName a v)
        as (w3 & E & Hc & _)
  end.
  rewrite E. do 2 eexists. split; [reflexivity|]. exact Hc.
Qed.

(** X2. Whatever the network answers and whichever deletions fail,
    the promise handed to [respondWith] resolves: the handler answers
    every same-origin request with a response and leaves exactly the
    cross-origin ones to the browser. *)
Theorem respondWith_always_resolves request w :
  exists answer w',
    run (onFetch request) request w = (Ok answer, w') /\
    (answer = None <-> spec_crossOrigin request = true).
Proof.
  unfold onFetch, spec_crossOrigin.
  destruct (negb (origin (url request) =? location_origin)).
  - exists None, w. split; [reflexivity | tauto].
  - assert (Hsome : forall r : Response,
               Some r = None <-> false = true)
      by (intros r; split; discriminate).
    destruct (prefix "/api/" (pathname (url request)));
      [|destruct (destination request =? "image");
        [|destruct ((destination request =? "script") ||
                    (destination request =? "style") ||
                    (destination request =? "font") ||
                    (destination request =? "document"))]];
      unfold run, bind.
    + destruct (networkFirst_caches request DYNAMIC_CACHE w)
        as (r & w' & E & _). rewrite E. unfold ret. eauto.
    + destruct (settle_caches request IMAGE_CACHE w)
        as (r & w' & E & _). rewrite E. unfold ret. eauto.
    + destruct (cacheFirst_caches request STATIC_CACHE w)
        as (r & w' & E & _). rewrite E. unfold ret. eauto.
    + destruct (networkFirst_caches request DYNAMIC_CACHE w)
        as (r & w' & E & _). rewrite E. unfold ret. eauto.
Qed.

(** X3. A strategy writes to its target cache only: every other cache
    has the same content after cache-first, network-first and
    stale-while-revalidate as before, whatever the network answers. *)
Theorem strategies_write_target_only request cacheName w n :
  n <> cacheName ->
  Store.lookup n (caches (snd (cacheFirst request cacheName w)))
  = Store.lookup n (caches w) /\
  Store.lookup n (caches (snd (networkFirst request cacheName w)))
  = Store.lookup n (caches w) /\
  Store.lookup n
    (caches (snd (settle (staleWhileRevalidate request cacheName) w)))
  = Store.lookup n (caches w).
Proof.
  intros Hn. repeat split.
  - destruct (cacheFirst_caches request cacheName w) as (r & w' & E & Hc).
    rewrite E. cbn [snd]. rewrite Hc.
    destruct (Store.matchAll (href (url request)) (caches w));
      [reflexivity|].
    destruct (server (href (url request))) as [r0|]; [|reflexivity].
    destruct (status r0 =? 200)%Z; [|reflexivity].
    rewrite lookup_update_other by exact Hn. now apply lookup_open_other.
  - destruct (networkFirst_caches request cacheName w) as (r & w' & E & Hc).
    rewrite E. cbn [snd]. rewrite Hc.
    destruct (server (href (url request))) as [r0|]; [|reflexivity].
    destruct (status r0 =? 200)%Z; [|reflexivity].
    now apply lookup_capturedAt_other.
  - destruct (settle_caches request cacheName w) as (r & w' & E & Hc).
    rewrite E. cbn [snd]. rewrite Hc.
    destruct (server (href (url request))) as [r0|]; [|reflexivity].
    destruct (status r0 =? 200)%Z; [|reflexivity].
    now apply lookup_capturedAt_other.
Qed.

(** X4. The entry that network-first or stale-while-revalidate has
    just written after a 200 response is in the target cache once the
    put and the eviction pass have settled, however full the cache was
    and whichever deletions failed, with one exception: the put landed
    between the key read and the deletions of a pass that had the
    request's own key among the oldest ones to delete, and that
    deletion went through; then the cache holds no entry for the
    request. *)
Theorem written_entry_kept_unless_overtaken request cacheName w r :
  server (href (url request)) = Some r ->
  status r = 200%Z ->
  spec_targetLookup cacheName (href (url request))
    (caches (snd (networkFirst request cacheName w))) =
    (if overtaken (put_lands cacheName (href (url request))) cacheName
                  (href (url request)) 100 (caches w) &&
        negb (delete_rejects cacheName (href (url request)))
     then None else Some r) /\
  spec_targetLookup cacheName (href (url request))
    (caches (snd (settle (staleWhileRevalidate request cacheName) w))) =
    (if overtaken (put_lands cacheName (href (url request))) cacheName
                  (href (url request)) 50 (caches w) &&
        negb (delete_rejects cacheName (href (url request)))
     then None else Some r).
Proof.
  intros Hs Hst. apply Z.eqb_eq in Hst. split.
  - destruct (networkFirst_caches request cacheName w) as (r' & w' & E & Hc).
    rewrite E. cbn [snd]. rewrite Hc, Hs, Hst.
    apply capturedAt_holds. simpl. lia.
  - destruct (settle_caches request cacheName w) as (r' & w' & E & Hc).
    rewrite E. cbn [snd]. rewrite Hc, Hs, Hst.
    apply capturedAt_holds. simpl. lia.
Qed.

(** X5. When deletions succeed, a capture leaves the target cache at
    most one entry over its limit, and within the limit when the put
    landed before the pass read the keys: at most 101 (100) entries
    after a network-first fetch answered with status 200, at most 51
    (50) after stale-while-revalidate.  The excess is real: a cache
    that holds exactly the limit and not the request ends up with
    limit + 1 entries when the pass read the keys before the put
    landed. *)
Theorem capture_within_one_of_limit request cacheName w r :
  server (href (url request)) = Some r ->
  status r = 200%Z ->
  (forall k, delete_rejects cacheName k = false) ->
  (exists c,
      Store.lookup cacheName (caches (snd (networkFirst request cacheName w)))
      = Some c /\
      length c <= match put_lands cacheName (href (url request)) with
                  | BeforeKeysRead => 100
                  | _ => 101
                  end /\
      (put_lands cacheName (href (url request)) <> BeforeKeysRead ->
       length (contentOf cacheName (caches w)) = 100 ->
       ~ In (href (url request))
            (Store.keys (contentOf cacheName (caches w))) ->
       length c = 101)) /\
  (exists c,
      Store.lookup cacheName
        (caches (snd (settle (staleWhileRevalidate request cacheName) w)))
      = Some c /\
      length c <= match put_lands cacheName (href (url request)) with
                  | BeforeKeysRead => 50
                  | _ => 51
                  end /\
      (put_lands cacheName (href (url request)) <> BeforeKeysRead ->
       length (contentOf cacheName (caches w)) = 50 ->
       ~ In (href (url request))
            (Store.keys (contentOf cacheName (caches w))) ->
       length c = 51)).
Proof.
  intros Hs Hst Hdel. apply Z.eqb_eq in Hst. split.
  - destruct (networkFirst_caches request cacheName w) as (r' & w' & E & Hc).
    rewrite E. cbn [snd]. rewrite Hc, Hs, Hst.
    eexists. split; [apply lookup_capturedAt|]. split.
    + exact (capturedCache_length _ cacheName _ r 100 _ Hdel).
    + intros Hl Hlen Hk. cbn [dynamic LIMITS].
      rewrite capturedCache_full by assumption.
      rewrite length_app, Hlen. reflexivity.
  - destruct (settle_caches request cacheName w) as (r' & w' & E & Hc).
    rewrite E. cbn [snd]. rewrite Hc, Hs, Hst.
    eexists. split; [apply lookup_capturedAt|]. split.
    + exact (capturedCache_length _ cacheName _ r 50 _ Hdel).
    + intros Hl Hlen Hk. cbn [images LIMITS].
      rewrite capturedCache_full by assumption.
      rewrite length_app, Hlen. reflexivity.
Qed.

(** ** Passes run again *)

Lemma lookup_afterEviction cacheName maxItems s :
  Store.lookup cacheName (afterEviction cacheName maxItems s) =
  Some (removeAll
          (carriedOut cacheName
             (toDelete maxItems (Store.keys (contentOf cacheName s))))
          (contentOf cacheName s)).
Proof.
  unfold afterEviction, cachedKeys, contentOf.
  rewrite lookup_update, !lookup_open. reflexivity.
Qed.

(** X6. With deletions that succeed, one eviction pass is enough and
    a second one changes nothing: after the pass the cache exists and
    holds at most [maxItems] entries (also when it did not exist, was
    within the limit, or held a key twice), and running the pass again
    leaves the caches exactly as they are. *)
Theorem limitCacheSize_idempotent cacheName maxItems w :
  (forall k, delete_rejects cacheName k = false) ->
  exists w1 w2 c,
    limitCacheSize cacheName maxItems w = (Ok tt, w1) /\
    Store.lookup cacheName (caches w1) = Some c /\
    length c <= maxItems /\
    limitCacheSize cacheName maxItems w1 = (Ok tt, w2) /\
    caches w2 = caches w1.
Proof.
  intros Hdel.
  assert (Hok : forall v, fst (limitCacheSize cacheName maxItems v) = Ok tt).
  { intros v. rewrite limitCacheSize_result.
    now rewrite (proj2 (carriedOut_all cacheName _ Hdel)). }
  set (w1 := snd (limitCacheSize cacheName maxItems w)).
  set (c := removeAll
              (carriedOut cacheName
                 (toDelete maxItems
                    (Store.keys (contentOf cacheName (caches w)))))
              (contentOf cacheName (caches w))).
  assert (Hc1 : Store.lookup cacheName (caches w1) = Some c).
  { subst w1. rewrite limitCacheSize_world. cbn [caches withCaches].
    apply lookup_afterEviction. }
  assert (Hlen : length c <= maxItems) by now apply evicted_length.
  exists w1, (snd (limitCacheSize cacheName maxItems w1)), c.
  split; [subst w1; rewrite <- (Hok w); apply surjective_pairing|].
  split; [exact Hc1|]. split; [exact Hlen|].
  split; [rewrite <- (Hok w1); apply surjective_pairing|].
  rewrite limitCacheSize_world. cbn [caches withCaches].
  unfold afterEviction, cachedKeys.
  rewrite (open_existing _ _ _ Hc1), Hc1.
  rewrite toDelete_within
    by (unfold Store.keys; now rewrite length_map).
  unfold carriedOut. simpl filter.
  rewrite (update_ext _ _ (fun x => x)) by apply removeAll_nil.
  apply update_id.
Qed.

Lemma filter_idempotent {A} (f : A -> bool) l :
  filter f (filter f l) = filter f l.
Proof.
  induction l as [|x l IH]; simpl; [reflexivity|].
  destruct (f x) eqn:E; simpl; [rewrite E|]; now rewrite IH.
Qed.

Lemma activate_run w :
  exists w',
    activate w = (Ok tt, w') /\
    caches w' =
      filter (fun c => negb (selectedForPurge (fst c))) (caches w).
Proof.
  clear put_lands.
  clear server location_origin delete_rejects.
  unfold activate, bind, console_log, caches_keys.
  cbn [fst snd caches].
  match goal with
  | |- context [promise_all ?f ?l ?v] =>
      destruct (promise_all_deletes f) with (names := l) (w := v)
        as (bs & w1 & E & H)
  end.
  { intros n v. unfold bind, console_log. cbn [fst snd].
    do 2 eexists. split; reflexivity. }
  rewrite E. unfold host_call. eexists. split; [reflexivity|].
  cbn [caches] in *. rewrite H. unfold purged. apply filter_ext_in.
  intros c Hc. f_equal. apply eq_true_iff_eq.
  rewrite existsb_exists. unfold selectedForPurge.
  rewrite andb_true_iff. split.
  - intros [n [Hn He]]. apply String.eqb_eq in He. subst n.
    apply filter_In in Hn. destruct Hn as [Hn Hnc].
    apply filter_In in Hn. tauto.
  - intros [Hp Hnc]. exists (fst c). split; [|apply String.eqb_refl].
    apply filter_In. split; [|exact Hnc].
    apply filter_In. split; [|exact Hp].
    unfold Store.names. now apply in_map.
Qed.

(** X7. Activation never deletes a cache of the current version, and
    activating again deletes nothing more: the three current caches,
    if they exist, are there afterwards with their contents, and a
    second activation leaves the caches as the first one left them. *)
Theorem activate_keeps_current_and_is_idempotent w :
  exists w1 w2,
    activate w = (Ok tt, w1) /\
    activate w1 = (Ok tt, w2) /\
    caches w2 = caches w1 /\
    (forall c,
        In c (caches w) ->
        fst c = STATIC_CACHE \/ fst c = DYNAMIC_CACHE \/ fst c = IMAGE_CACHE ->
        In c (caches w1)).
Proof.
  destruct (activate_run w) as (w1 & E1 & H1).
  destruct (activate_run w1) as (w2 & E2 & H2).
  exists w1, w2. split; [exact E1|]. split; [exact E2|]. split.
  - rewrite H2, H1. apply filter_idempotent.
  - intros c Hc Hcur. rewrite H1. apply filter_In. split; [exact Hc|].
    unfold selectedForPurge, not_current.
    destruct Hcur as [E | [E | E]]; rewrite E, String.eqb_refl; simpl;
      now rewrite ?andb_false_r.
Qed.

(** X8. Installation touches the static cache only, fetches the four
    paths of the manifest in their order whatever the outcome, and
    always asks to skip waiting. *)
Theorem install_frame w :
  exists w',
    install w = (Ok tt, w') /\
    (forall n, n <> STATIC_CACHE ->
               Store.lookup n (caches w') = Store.lookup n (caches w)) /\
    network w' =
      network w ++
      map (fun p => (location_origin ++ p)%string)
          ["/"; "/index.html"; "/manifest.json"; "/favicon.png"] /\
    hostCalls w' = hostCalls w ++ ["skipWaiting"].
Proof.
  unfold install, install_work, try_catch.
  unfold bind at 1 2 3, console_log at 1 2. cbn [fst snd].
  unfold bind at 1 2, caches_open, console_log at 1. cbn [fst snd].
  rewrite cache_addAll_run. cbv zeta.
  destruct (forallb (fun p => accepted (server (location_origin ++ p)))
                    STATIC_ASSETS).
  - unfold host_call. eexists. split; [reflexivity|].
    cbn [caches network hostCalls withCaches]. repeat split.
    intros n Hn. rewrite lookup_update_other by exact Hn.
    now apply lookup_open_other.
  - unfold console_log, host_call. eexists. split; [reflexivity|].
    cbn [caches network hostCalls withCaches]. repeat split.
    intros n Hn. now apply lookup_open_other.
Qed.

Lemma promise_all_caches_delete_network l w :
  network (snd (promise_all caches_delete l w)) = network w.
Proof.
  revert w. induction l as [|n l IH]; intros w; simpl; [reflexivity|].
  unfold caches_delete in *.
  match goal with
  | |- network (snd (match promise_all ?f ?l ?v with _ => _ end)) = _ =>
      pose proof (IH v) as H;
      destruct (promise_all f l v) as [[bs|e] w2]
  end; simpl in *; exact H.
Qed.

Lemma message_clear_run w :
  exists w',
    message (Some "CLEAR_CACHE") w = (Ok tt, w') /\
    caches w' = [] /\
    network w' = network w.
Proof.
  unfold message, bind, console_log, caches_keys, ret.
  cbn [fst snd caches String.eqb Ascii.eqb Bool.eqb].
  match goal with
  | |- context [promise_all caches_delete ?l ?v] =>
      pose proof (promise_all_caches_delete_network l v) as Hn;
      destruct (promise_all_deletes caches_delete caches_delete_deletes l v)
        as (bs & w1 & E & H)
  end.
  rewrite E in *. exists w1. split; [reflexivity|].
  split; [rewrite H; apply purged_all | exact Hn].
Qed.

(** X9. After a CLEAR_CACHE message nothing is served from a cache:
    the next cache-first request misses, goes to the network and gets
    the network's response, or the synthesized 503 Offline when the
    network is down (the offline page is gone as well). *)
Theorem clear_cache_then_request_misses request cacheName w :
  exists w1 w2,
    message (Some "CLEAR_CACHE") w = (Ok tt, w1) /\
    cacheFirst request cacheName w1 =
      (Ok match server (href (url request)) with
          | Some r => r
          | None => mkResponse 503 "Offline"
          end, w2) /\
    network w2 = network w ++ [href (url request)].
Proof.
  destruct (message_clear_run w) as (w1 & E1 & Hc & Hn).
  assert (Hm : forall k, Store.matchAll k (caches w1) = None)
    by (intros k; now rewrite Hc).
  exists w1.
  destruct (server (href (url request))) as [r|] eqn:Hs.
  - destruct (cacheFirst_miss request cacheName w1 r (Hm _) Hs)
      as (w2 & E2 & Hn2 & _).
    exists w2. rewrite <- Hn. auto.
  - destruct (cacheFirst_offline request cacheName w1 (Hm _) Hs)
      as (w2 & E2 & _ & Hn2 & _).
    rewrite (Hm _) in E2. exists w2. rewrite <- Hn. auto.
Qed.

(** ** What a capture makes available to later requests *)

Lemma matchAll_None_inv key s :
  Store.matchAll key s = None ->
  forall n c, In (n, c) s -> Store.matchEntry key c = None.
Proof.
  induction s as [|[m d] s IH]; simpl; intros H n c Hin; [destruct Hin|].
  destruct (Store.matchEntry key d) eqn:E; [discriminate|].
  destruct Hin as [Heq|Hin]; [congruence | eauto].
Qed.

Lemma cacheFirst_captures request cacheName w r :
  NoDup (Store.names (caches w)) ->
  Store.matchAll (href (url request)) (caches w) = None ->
  server (href (url request)) = Some r ->
  status r = 200%Z ->
  exists w',
    cacheFirst request cacheName w = (Ok r, w') /\
    Store.matchAll (href (url request)) (caches w') = Some r.
Proof.
  intros Hnd Hm Hs Hst. apply Z.eqb_eq in Hst.
  destruct (cacheFirst_miss request cacheName w r Hm Hs) as (w' & E & _ & Hc).
  rewrite Hst in Hc. exists w'. split; [exact E|]. rewrite Hc.
  assert (Hheld : heldOnlyBy cacheName (href (url request)) (caches w)).
  { intros n c Hin _. eapply matchAll_None_inv; eauto. }
  rewrite (matchAll_heldOnlyBy cacheName).
  - unfold spec_targetLookup. rewrite lookup_update, lookup_open. simpl.
    rewrite matchEntry_put. now rewrite String.eqb_refl.
  - rewrite names_update. now apply open_NoDup.
  - now apply heldOnlyBy_update, heldOnlyBy_open.
Qed.

Lemma networkFirst_captures request cacheName w r :
  NoDup (Store.names (caches w)) ->
  heldOnlyBy cacheName (href (url request)) (caches w) ->
  server (href (url request)) = Some r ->
  status r = 200%Z ->
  exists w',
    networkFirst request cacheName w = (Ok r, w') /\
    Store.matchAll (href (url request)) (caches w') =
    if overtaken (put_lands cacheName (href (url request))) cacheName
                 (href (url request)) 100 (caches w) &&
       negb (delete_rejects cacheName (href (url request)))
    then None else Some r.
Proof.
  intros Hnd Hheld Hs Hst. apply Z.eqb_eq in Hst.
  destruct (networkFirst_online request cacheName w r Hs)
    as (w' & E & Hc & _).
  rewrite Hst in Hc. exists w'. split; [exact E|]. rewrite Hc.
  apply capturedAt_matchAll; [simpl; lia | exact Hnd | exact Hheld].
Qed.

Lemma settle_run request cacheName w :
  exists w',
    settle (staleWhileRevalidate request cacheName) w =
      (Ok match Store.matchAll (href (url request)) (caches w) with
          | Some cached => cached
          | None =>
              match server (href (url request)) with
              | Some r => r
              | None => mkResponse 503 "Offline"
              end
          end, w') /\
    caches w' =
      match server (href (url request)) with
      | Some r =>
          if (status r =? 200)%Z
          then capturedAt (put_lands cacheName (href (url request)))
                          cacheName (href (url request)) r (images LIMITS)
                          (caches w)
          else caches w
      | None => caches w
      end.
Proof.
  unfold settle, staleWhileRevalidate, bind, caches_match, fetch_begin, ret.
  cbn [fst snd returned awaiting fetchPromise].
  match goal with
  | |- context [revalidated request cacheName ?a ?v] =>
      destruct (revalidated_settles request cacheName a v)
        as (w3 & E & Hc & _)
  end.
  rewrite E. exists w3. split; [|exact Hc].
  now destruct (Store.matchAll (href (url request)) (caches w)).
Qed.

Lemma settle_captures request cacheName w r :
  NoDup (Store.names (caches w)) ->
  heldOnlyBy cacheName (href (url request)) (caches w) ->
  server (href (url request)) = Some r ->
  status r = 200%Z ->
  exists w',
    settle (staleWhileRevalidate request cacheName) w =
      (Ok match Store.matchAll (href (url request)) (caches w) with
          | Some cached => cached
          | None => r
          end, w') /\
    Store.matchAll (href (url request)) (caches w') =
    if overtaken (put_lands cacheName (href (url request))) cacheName
                 (href (url request)) 50 (caches w) &&
       negb (delete_rejects cacheName (href (url request)))
    then None else Some r.
Proof.
  intros Hnd Hheld Hs Hst. apply Z.eqb_eq in Hst.
  destruct (settle_run request cacheName w) as (w' & E & Hc).
  rewrite Hs in E. rewrite Hs, Hst in Hc.
  exists w'. split; [exact E|]. rewrite Hc.
  apply capturedAt_matchAll; [simpl; lia | exact Hnd | exact Hheld].
Qed.

Lemma install_stores w p :
  forallb (fun p => accepted (server (location_origin ++ p))) STATIC_ASSETS
  = true ->
  NoDup (Store.names (caches w)) ->
  heldOnlyBy STATIC_CACHE (location_origin ++ p) (caches w) ->
  In p STATIC_ASSETS ->
  exists w',
    install w = (Ok tt, w') /\
    Store.matchAll (location_origin ++ p) (caches w')
    = server (location_origin ++ p).
Proof.
  intros Hall Hnd Hheld Hp.
  unfold install, install_work, try_catch.
  unfold bind at 1 2 3, console_log at 1 2. cbn [fst snd].
  unfold bind at 1 2, caches_open, console_log at 1. cbn [fst snd].
  rewrite cache_addAll_run. cbv zeta. rewrite Hall.
  unfold host_call. eexists. split; [reflexivity|].
  cbn [caches withCaches].
  rewrite (matchAll_heldOnlyBy STATIC_CACHE).
  - unfold spec_targetLookup. rewrite lookup_update, lookup_open.
    cbn [option_map]. now apply matchEntry_putAll.
  - rewrite names_update. now apply open_NoDup.
  - now apply heldOnlyBy_update, heldOnlyBy_open.
Qed.

End Worker.

(** ** The theorems at sample inputs *)

Import Sample.

Lemma onFetch_first_match_witness :
  spec_crossOrigin appOrigin
    (mkRequest (mkURL "https://cdn.example" "/api/lib.js" "") "script") = true /\
  run appOrigin online reliable putLast
      (onFetch appOrigin "v2"
         (mkRequest (mkURL "https://cdn.example" "/api/lib.js" "") "script"))
      (mkRequest (mkURL "https://cdn.example" "/api/lib.js" "") "script")
      (world logoInDynamic)
  = (Ok None, world logoInDynamic).
Proof.
  split; [reflexivity|].
  apply (proj2 (proj2 (onFetch_first_match appOrigin "v2" online reliable
                               putLast _))).
  reflexivity.
Defined.

(** The rules in order, on requests that several rules would match. *)
Example onFetch_order :
  onFetch appOrigin "v2" (request "/api/avatar.png" "image")
    = RespondWith NetworkFirst "dynamic-v2" /\
  onFetch appOrigin "v2" (request "/logo.png" "image")
    = RespondWith StaleWhileRevalidate "images-v2" /\
  onFetch appOrigin "v2" (request "/" "document")
    = RespondWith CacheFirst "static-v2" /\
  onFetch appOrigin "v2" (request "/data.json" "")
    = RespondWith NetworkFirst "dynamic-v2".
Proof. repeat split. Qed.

Lemma cacheFirst_hit_or_fetch_witness :
  Store.matchAll (href (url (request "/app.js" "script"))) logoInDynamic = None /\
  online (href (url (request "/app.js" "script"))) = Some fresh /\
  exists w',
    cacheFirst appOrigin online (request "/app.js" "script") "static-v2"
               (world logoInDynamic) = (Ok fresh, w') /\
    network w' = ["https://app.example/app.js"] /\
    spec_targetLookup "static-v2" "https://app.example/app.js" (caches w')
    = Some fresh.
Proof.
  split; [reflexivity|]. split; [reflexivity|].
  exact (proj2 (cacheFirst_hit_or_fetch appOrigin online
                  (request "/app.js" "script") "static-v2"
                  (world logoInDynamic))
               fresh eq_refl eq_refl).
Defined.

(** The claim C2 as worded fails here: the target cache static-v2 holds
    no entry for the logo and the network would answer, yet cache-first
    answers with the entry of dynamic-v2 and fetches nothing. *)
Lemma cacheFirst_answers_from_another_cache :
  spec_targetLookup "static-v2" "https://app.example/logo.png" logoInDynamic
  = None /\
  online "https://app.example/logo.png" = Some fresh /\
  cacheFirst appOrigin online (request "/logo.png" "document") "static-v2"
             (world logoInDynamic)
  = (Ok stale, world logoInDynamic) /\
  network (snd (cacheFirst appOrigin online (request "/logo.png" "document")
                           "static-v2" (world logoInDynamic))) = [] /\
  stale <> fresh.
Proof. repeat split. discriminate. Qed.

(** Offline: the cached copy if there is one (in whichever cache),
    else the synthesized 503; online, the network's response. *)
Example networkFirst_unreachable :
  networkFirst unreachable reliable putLast
               (request "/logo.png" "") "dynamic-v2" (world logoInImages)
  = (Ok stale,
     mkWorld logoInImages
             ["[SW] Network failed, trying cache: Failed to fetch"]
             ["https://app.example/logo.png"] [] [] []
             ["https://app.example/logo.png"]) /\
  networkFirst unreachable reliable putLast
               (request "/api/items" "") "dynamic-v2" (world logoInImages)
  = (Ok (mkResponse 503 "Offline"),
     mkWorld logoInImages
             ["[SW] Network failed, trying cache: Failed to fetch"]
             ["https://app.example/api/items"]
             [mkResponse 503 "Offline"] [] []
             ["https://app.example/api/items"]) /\
  fst (networkFirst online reliable putLast
                    (request "/api/items" "") "dynamic-v2"
                    (world logoInImages)) = Ok fresh.
Proof. repeat split. Qed.

(** The logo is cached and the network would answer with a fresh one:
    the call returns the cached one with the fetch pending and leaves
    the caches alone; the entry is overwritten when the fetch
    settles. *)
Example staleWhileRevalidate_logo :
  (let (outcome, w1) :=
     staleWhileRevalidate reliable putLast (request "/logo.png" "image")
                          "images-v2" (world logoInImages) in
   match outcome with
   | Ok call =>
       returned call = Some stale /\
       caches w1 = logoInImages /\
       settled w1 = [] /\
       caches (snd (fetchPromise call (Some fresh) w1))
       = [("images-v2", [("https://app.example/logo.png", fresh)])] /\
       settled (snd (fetchPromise call (Some fresh) w1))
       = ["https://app.example/logo.png"]
   | Throw _ => False
   end) /\
  fst (settle online (staleWhileRevalidate reliable putLast
                 (request "/logo.png" "image") "images-v2")
              (world logoInImages)) = Ok stale /\
  fst (settle unreachable (staleWhileRevalidate reliable putLast
                 (request "/photo.png" "image") "images-v2")
              (world logoInImages)) = Ok (mkResponse 503 "Offline").
Proof. repeat split. Qed.

Lemma limitCacheSize_fifo_witness :
  Store.lookup "images-v2" [("images-v2", abcd)] = Some abcd /\
  NoDup (Store.keys abcd) /\
  (forall k, reliable "images-v2" k = false) /\
  2 < length abcd /\
  exists w' deleted retained,
    limitCacheSize reliable "images-v2" 2 (world [("images-v2", abcd)])
    = (Ok tt, w') /\
    abcd = deleted ++ retained /\
    length deleted = length abcd - 2 /\
    Store.lookup "images-v2" (caches w') = Some retained /\
    length retained <= 2 /\
    (forall n, n <> "images-v2" ->
               Store.lookup n (caches w') =
               Store.lookup n (caches (world [("images-v2", abcd)]))).
Proof.
  assert (Hnd : NoDup (Store.keys abcd)).
  { do 3 apply put_NoDup. simpl. repeat constructor. intros []. }
  split; [reflexivity|]. split; [exact Hnd|].
  split; [reflexivity|]. split; [simpl; lia|].
  apply (limitCacheSize_fifo reliable "images-v2" 2
           (world [("images-v2", abcd)]) abcd eq_refl Hnd).
  - reflexivity.
  - simpl. lia.
Defined.

(** Inserted in the order A, B, C, D with limit 2: C and D remain. *)
Example limitCacheSize_ABCD :
  Store.keys abcd = ["A"; "B"; "C"; "D"] /\
  caches (snd (limitCacheSize reliable "images-v2" 2
                              (world [("images-v2", abcd)])))
  = [("images-v2", [("C", fresh); ("D", fresh)])].
Proof. split; reflexivity. Qed.

(** With version v2 active, static-v1, dynamic-v1 and images-v1 are
    deleted and unrelated-foo stays as it is. *)
Example activate_after_upgrade :
  caches (snd (activate "v2" (world afterUpgrade)))
  = [("unrelated-foo", [("https://app.example/", stale)])] /\
  caches (snd (activate buildVersion (world afterBuild)))
  = [ ("static-dev-1772130527350", []); ("workbox-precache-v2", [])
    ; ("images-dev-1772130527350", []) ].
Proof. split; reflexivity. Qed.

Lemma activate_purges_stale_witness :
  spec_stale "v2" "static-v1" /\
  exists w',
    activate "v2" (world afterUpgrade) = (Ok tt, w') /\
    ~ In ("static-v1", []) (caches w') /\
    In ("unrelated-foo", [("https://app.example/", stale)]) (caches w').
Proof.
  assert (Hstale : spec_stale "v2" "static-v1").
  { exists "static-", "v1". simpl. repeat split; [auto | discriminate]. }
  split; [exact Hstale|].
  destruct (activate_purges_stale "v2" (world afterUpgrade)) as (w' & E & H).
  exists w'. split; [exact E|]. split.
  - intros Hin. apply H in Hin. destruct Hin as [_ Hn]. exact (Hn Hstale).
  - apply H. split; [simpl; auto|].
    intros (role & v & Hrole & Hname & _). simpl in Hrole, Hname.
    destruct Hrole as [<-|[<-|[<-|[]]]]; discriminate.
Defined.

Lemma clear_cache_deletes_every_cache_witness :
  Some "SKIP_WAITING" <> Some "CLEAR_CACHE" /\
  exists w', message (Some "SKIP_WAITING") (world afterUpgrade) = (Ok tt, w') /\
             caches w' = afterUpgrade.
Proof.
  split; [discriminate|].
  apply (proj2 (clear_cache_deletes_every_cache (world afterUpgrade))).
  discriminate.
Defined.

(** The claim C7 as worded fails here: unrelated-foo carries no role
    prefix and is deleted by CLEAR_CACHE all the same. *)
Lemma clear_cache_deletes_unrelated_cache :
  has_role_prefix "unrelated-foo" = false /\
  Store.has "unrelated-foo" afterUpgrade = true /\
  Store.has "unrelated-foo"
    (caches (snd (message (Some "CLEAR_CACHE") (world afterUpgrade)))) = false.
Proof. repeat split. Qed.

(** The claim C8 as worded fails here: only the icon cannot be fetched,
    and the home document, which the network serves, is not installed
    either; the installation itself completes. *)
Lemma install_one_failure_drops_every_asset :
  withoutIcon "https://app.example/favicon.png" = None /\
  withoutIcon "https://app.example/" = Some fresh /\
  fst (install appOrigin "v2" withoutIcon emptyWorld) = Ok tt /\
  spec_targetLookup "static-v2" "https://app.example/"
    (caches (snd (install appOrigin "v2" withoutIcon emptyWorld))) = None /\
  caches (snd (install appOrigin "v2" withoutIcon emptyWorld))
  = [("static-v2", [])].
Proof. repeat split. Qed.

(** A partial response counts as a failure, though its status is ok:
    nothing is stored for any asset. *)
Example install_partial_response_drops_every_asset :
  ok partial = true /\
  fst (install appOrigin "v2" partialManifest emptyWorld) = Ok tt /\
  caches (snd (install appOrigin "v2" partialManifest emptyWorld))
  = [("static-v2", [])].
Proof. repeat split. Qed.

Lemma install_all_or_nothing_witness :
  forallb (fun p => accepted (online (appOrigin ++ p)))
          (STATIC_ASSETS) = true /\
  In "/manifest.json" STATIC_ASSETS /\
  exists w',
    install appOrigin "v2" online emptyWorld = (Ok tt, w') /\
    spec_targetLookup "static-v2" "https://app.example/manifest.json"
                      (caches w')
    = Some fresh.
Proof.
  split; [reflexivity|]. split; [simpl; auto|].
  destruct (install_all_or_nothing appOrigin "v2" online emptyWorld)
    as (w' & E & H).
  exists w'. split; [exact E|].
  simpl forallb in H. cbv iota in H.
  apply (H "/manifest.json"). simpl. auto.
Defined.

Lemma eviction_failure_is_silent_witness :
  In "B" (toDelete 2 (cachedKeys "images-v2"
                        (Store.open "images-v2" [("images-v2", abcd)]))) /\
  stuckOn "A" "images-v2" "B" = false /\
  exists outcome w',
    limitCacheSize (stuckOn "A") "images-v2" 2 (world [("images-v2", abcd)])
    = (outcome, w') /\
    outcome = Throw "cache.delete failed" /\
    console w' = [] /\
    spec_targetLookup "images-v2" "B" (caches w') = None /\
    fst (networkFirst online (stuckOn "A") putLast
                      (request "/api/items" "")
                      "images-v2" (world [("images-v2", abcd)])) = Ok fresh.
Proof.
  split; [simpl; auto|]. split; [reflexivity|].
  destruct (eviction_failure_is_silent online (stuckOn "A") putLast
              "images-v2" 2
              (world [("images-v2", abcd)]))
    as (outcome & w' & E & Ho & Hc & Hd & Hcaller).
  exists outcome, w'. split; [exact E|]. split; [exact Ho|].
  split; [exact Hc|]. split.
  - apply Hd; [simpl; auto | reflexivity].
  - exact (proj1 (Hcaller (request "/api/items" "") fresh eq_refl)).
Defined.

(** The claim C9 as worded fails here: the deletion of A rejects, the
    pass rejects with it, and nothing is written to the console. *)
Lemma eviction_failure_is_not_logged :
  stuckOn "A" "images-v2" "A" = true /\
  limitCacheSize (stuckOn "A") "images-v2" 2 (world [("images-v2", abcd)])
  = (Throw "cache.delete failed",
     world [("images-v2", [("A", fresh); ("C", fresh); ("D", fresh)])]) /\
  console (snd (limitCacheSize (stuckOn "A") "images-v2" 2
                               (world [("images-v2", abcd)]))) = [].
Proof. repeat split. Qed.

Lemma non200_leaves_caches_witness :
  missing (href (url (request "/logo.png" "image"))) = Some notFound /\
  status notFound <> 200%Z /\
  (exists w', networkFirst missing reliable putLast
                           (request "/logo.png" "image")
                           "images-v2" (world logoInImages)
              = (Ok notFound, w') /\
              caches w' = logoInImages) /\
  (exists w', cacheFirst appOrigin missing (request "/logo.png" "image")
                         "images-v2" (world logoInImages)
              = (Ok stale, w') /\
              caches w' = logoInImages) /\
  (exists w', settle missing (staleWhileRevalidate reliable putLast
                        (request "/logo.png" "image") "images-v2")
                     (world logoInImages)
              = (Ok stale, w') /\
              caches w' = logoInImages).
Proof.
  split; [reflexivity|]. split; [discriminate|].
  apply (non200_leaves_caches appOrigin missing reliable putLast
           (request "/logo.png" "image") _ (world logoInImages) notFound).
  - reflexivity.
  - discriminate.
Defined.

(** The claim C10 as worded fails here: the network answers 404, and
    the caller of stale-while-revalidate gets the cached response, not
    the 404. *)
Lemma staleWhileRevalidate_404_not_returned :
  missing "https://app.example/logo.png" = Some notFound /\
  fst (settle missing (staleWhileRevalidate reliable putLast
                 (request "/logo.png" "image") "images-v2")
              (world logoInImages)) = Ok stale /\
  stale <> notFound.
Proof. repeat split. discriminate. Qed.

(** ** Requests one after the other, on networks that differ *)

(** X10. What cache-first fetched with status 200 it serves from the
    cache from then on: when nothing was cached for the request, the
    first call returns the network response, and the same request
    afterwards gets that response again without any fetch and without
    any change to the world, whatever the network would answer by
    then. *)
Theorem cacheFirst_round_trip
        (location_origin : string) (server server' : string -> option Response)
        (req : Request) (cacheName cacheName' : string) (w : World)
        (r : Response) :
  NoDup (Store.names (caches w)) ->
  Store.matchAll (href (url req)) (caches w) = None ->
  server (href (url req)) = Some r ->
  status r = 200%Z ->
  exists w1,
    cacheFirst location_origin server req cacheName w = (Ok r, w1) /\
    cacheFirst location_origin server' req cacheName' w1 = (Ok r, w1).
Proof.
  intros Hnd Hm Hs Hst.
  destruct (cacheFirst_captures location_origin server req cacheName w r
              Hnd Hm Hs Hst) as (w1 & E & Hm1).
  exists w1. split; [exact E|]. now apply cacheFirst_hit.
Qed.

(** X11. What network-first fetched with status 200 it falls back to
    when the network is down afterwards: if no other cache holds the
    request, the first call returns the network response, and the same
    request on an unreachable network gets that same response from the
    cache, whichever other deletions the eviction pass made or failed
    to make.  The one exception is a put overtaken by a pass that
    deleted the request's own key: then nothing is cached and the
    second call answers 503 Offline. *)
Theorem networkFirst_then_offline
        (server server' : string -> option Response)
        (delete_rejects delete_rejects' : string -> string -> bool)
        (put_lands put_lands' : string -> string -> Landing)
        (req : Request) (cacheName cacheName' : string) (w : World)
        (r : Response) :
  NoDup (Store.names (caches w)) ->
  heldOnlyBy cacheName (href (url req)) (caches w) ->
  server (href (url req)) = Some r ->
  status r = 200%Z ->
  server' (href (url req)) = None ->
  exists w1 w2,
    networkFirst server delete_rejects put_lands req cacheName w
    = (Ok r, w1) /\
    networkFirst server' delete_rejects' put_lands' req cacheName' w1
    = (Ok (if overtaken (put_lands cacheName (href (url req))) cacheName
                        (href (url req)) 100 (caches w) &&
              negb (delete_rejects cacheName (href (url req)))
           then mkResponse 503 "Offline"
           else r), w2).
Proof.
  intros Hnd Hheld Hs Hst Hs'.
  destruct (networkFirst_captures server delete_rejects put_lands req
              cacheName w r Hnd Hheld Hs Hst) as (w1 & E & Hm1).
  destruct (networkFirst_offline server' delete_rejects' put_lands' req
              cacheName' w1 Hs') as (w2 & E2 & _).
  rewrite Hm1 in E2. exists w1, w2. split; [exact E|]. rewrite E2.
  now destruct (overtaken _ _ _ _ _ && _).
Qed.

(** X12. Stale-while-revalidate is stale at most once: when the
    network answers with status 200 (and no cache other than the target
    holds the request), the caller gets the cached response if there
    was one and the network response otherwise, and the same request
    afterwards is answered with that network response from the cache,
    whatever the network does by then (also when it is down).  The one
    exception is a put overtaken by a pass that deleted the request's
    own key: then nothing is cached, and the second call answers with
    what the network gives by then, or 503 Offline. *)
Theorem staleWhileRevalidate_then_fresh
        (server server' : string -> option Response)
        (delete_rejects delete_rejects' : string -> string -> bool)
        (put_lands put_lands' : string -> string -> Landing)
        (req : Request) (cacheName cacheName' : string) (w : World)
        (r : Response) :
  NoDup (Store.names (caches w)) ->
  heldOnlyBy cacheName (href (url req)) (caches w) ->
  server (href (url req)) = Some r ->
  status r = 200%Z ->
  exists w1 w2,
    settle server (staleWhileRevalidate delete_rejects put_lands req cacheName)
           w
    = (Ok match Store.matchAll (href (url req)) (caches w) with
          | Some cached => cached
          | None => r
          end, w1) /\
    settle server'
           (staleWhileRevalidate delete_rejects' put_lands' req cacheName') w1
    = (Ok (if overtaken (put_lands cacheName (href (url req))) cacheName
                        (href (url req)) 50 (caches w) &&
              negb (delete_rejects cacheName (href (url req)))
           then match server' (href (url req)) with
                | Some r' => r'
                | None => mkResponse 503 "Offline"
                end
           else r), w2).
Proof.
  intros Hnd Hheld Hs Hst.
  destruct (settle_captures server delete_rejects put_lands req cacheName w r
              Hnd Hheld Hs Hst) as (w1 & E & Hm1).
  destruct (settle_run server' delete_rejects' put_lands' req cacheName' w1)
    as (w2 & E2 & _).
  rewrite Hm1 in E2. exists w1, w2. split; [exact E|]. rewrite E2.
  now destruct (overtaken _ _ _ _ _ && _).
Qed.

Lemma append_empty (s : string) : (s ++ "")%string = s.
Proof. induction s as [|a s IH]; simpl; congruence. Qed.

(** X13. What installation stored is served offline: when every
    asset of the manifest was fetched with an ok status other than 206
    (and no other cache holds the asset), a cache-first request for the
    asset on the
    worker's origin is answered with the installed response, without a
    fetch, whatever the network does by then. *)
Theorem install_then_cacheFirst
        (location_origin CACHE_VERSION : string)
        (server server' : string -> option Response)
        (p dest cacheName : string) (w : World) :
  forallb (fun p =>
             match server (location_origin ++ p)%string with
             | Some r =>
                 ((200 <=? status r) && (status r <=? 299) &&
                  negb (status r =? 206))%Z
             | None => false
             end) STATIC_ASSETS
  = true ->
  NoDup (Store.names (caches w)) ->
  heldOnlyBy (STATIC_CACHE CACHE_VERSION) (location_origin ++ p)%string (caches w) ->
  In p STATIC_ASSETS ->
  exists r w1,
    server (location_origin ++ p)%string = Some r /\
    install location_origin CACHE_VERSION server w = (Ok tt, w1) /\
    cacheFirst location_origin server'
               (mkRequest (mkURL location_origin p "") dest) cacheName w1
    = (Ok r, w1).
Proof.
  intros Hall Hnd Hheld Hp.
  destruct (install_stores location_origin CACHE_VERSION server w p
              Hall Hnd Hheld Hp) as (w1 & E & Hm).
  assert (Hacc : accepted (server (location_origin ++ p)%string) = true).
  { rewrite forallb_forall in Hall. now apply Hall. }
  destruct (server (location_origin ++ p)%string) as [r|] eqn:Hs; [|discriminate].
  exists r, w1. split; [reflexivity|]. split; [exact E|].
  apply cacheFirst_hit. unfold href. cbn [url origin pathname search].
  now rewrite append_empty.
Qed.

(** ** The further properties at sample inputs *)

Lemma cacheFirst_offline_page_witness :
  Store.matchAll (href (url (request "/about" "document"))) withOfflinePage
  = None /\
  unreachable (href (url (request "/about" "document"))) = None /\
  exists w',
    cacheFirst appOrigin unreachable (request "/about" "document")
               "static-v2" (world withOfflinePage)
    = (Ok offlinePage, w') /\
    caches w' = withOfflinePage /\
    console w' = ["[SW] Cache-first failed: Failed to fetch"].
Proof.
  split; [reflexivity|]. split; [reflexivity|].
  apply (cacheFirst_offline_page appOrigin unreachable
           (request "/about" "document") "static-v2" (world withOfflinePage));
    reflexivity.
Defined.

Lemma strategies_write_target_only_witness :
  "static-v2" <> "images-v2" /\
  Store.lookup "static-v2"
    (caches (snd (networkFirst online reliable putLast
                               (request "/logo.png" "image")
                               "images-v2" (world withOfflinePage))))
  = Some [("https://app.example/offline.html", offlinePage)].
Proof.
  assert (Hn : "static-v2" <> "images-v2") by discriminate.
  split; [exact Hn|].
  exact (proj1 (proj2 (strategies_write_target_only appOrigin online reliable
                         putLast
                         (request "/logo.png" "image") "images-v2"
                         (world withOfflinePage) "static-v2" Hn))).
Defined.

(** The image cache holds 51 images, one over its limit, and the
    oldest one is requested again: the pass has read the keys and set
    out to delete that one when the put lands, and deletes the fresh
    entry; had the put landed after the pass, the entry would be
    there. *)
Lemma written_entry_kept_unless_overtaken_witness :
  online (href (url (request "/img/0" "image"))) = Some fresh /\
  status fresh = 200%Z /\
  spec_targetLookup "images-v2" "https://app.example/img/0"
    (caches (snd (settle online
                    (staleWhileRevalidate reliable putBetween
                       (request "/img/0" "image") "images-v2")
                    (world [("images-v2", gallery 51)]))))
  = None /\
  spec_targetLookup "images-v2" "https://app.example/img/0"
    (caches (snd (settle online
                    (staleWhileRevalidate reliable putLast
                       (request "/img/0" "image") "images-v2")
                    (world [("images-v2", gallery 51)]))))
  = Some fresh.
Proof.
  split; [reflexivity|]. split; [reflexivity|]. split.
  - exact (proj2 (written_entry_kept_unless_overtaken online reliable
                    putBetween (request "/img/0" "image") "images-v2"
                    (world [("images-v2", gallery 51)]) fresh
                    eq_refl eq_refl)).
  - exact (proj2 (written_entry_kept_unless_overtaken online reliable
                    putLast (request "/img/0" "image") "images-v2"
                    (world [("images-v2", gallery 51)]) fresh
                    eq_refl eq_refl)).
Defined.

(** The image cache holds exactly 50 images and a new one is fetched:
    the pass read 50 keys and deleted nothing, and the cache ends up
    with 51 entries. *)
Lemma capture_within_one_of_limit_witness :
  online (href (url (request "/logo.png" "image"))) = Some fresh /\
  status fresh = 200%Z /\
  (forall k, reliable "images-v2" k = false) /\
  exists c,
    Store.lookup "images-v2"
      (caches (snd (settle online (staleWhileRevalidate reliable putLast
                              (request "/logo.png" "image") "images-v2")
                           (world [("images-v2", gallery 50)]))))
    = Some c /\ length c = 51.
Proof.
  split; [reflexivity|]. split; [reflexivity|]. split; [reflexivity|].
  destruct (proj2 (capture_within_one_of_limit online reliable putLast
                     (request "/logo.png" "image") "images-v2"
                     (world [("images-v2", gallery 50)]) fresh
                     eq_refl eq_refl (fun _ => eq_refl)))
    as (c & Hc & _ & Hfull).
  exists c. split; [exact Hc|]. apply Hfull.
  - discriminate.
  - reflexivity.
  - intros Hin. vm_compute in Hin.
    repeat (destruct Hin as [Hin|Hin]; [discriminate|]). exact Hin.
Defined.

(** The same capture under the three landings, and two captures into
    a cache at or over its limit when the pass reads the keys first:
    100 entries and a new one make 101, and 51 entries, the deletion
    of the oldest of which rejects, and a new one make 52. *)
Example capture_by_landing :
  map (fun landing =>
         length (contentOf "images-v2"
                   (caches (snd (settle online
                                   (staleWhileRevalidate reliable landing
                                      (request "/logo.png" "image")
                                      "images-v2")
                                   (world [("images-v2", gallery 50)]))))))
      [putFirst; putBetween; putLast]
  = [50; 51; 51] /\
  length (contentOf "dynamic-v2"
            (caches (snd (networkFirst online reliable putLast
                            (request "/api/items" "") "dynamic-v2"
                            (world [("dynamic-v2", gallery 100)])))))
  = 101 /\
  length (contentOf "images-v2"
            (caches (snd (settle online
                            (staleWhileRevalidate
                               (stuckOn "https://app.example/img/0") putLast
                               (request "/logo.png" "image") "images-v2")
                            (world [("images-v2", gallery 51)])))))
  = 52.
Proof. repeat split; vm_compute; reflexivity. Qed.

Lemma limitCacheSize_idempotent_witness :
  (forall k, reliable "images-v2" k = false) /\
  exists w1 w2 c,
    limitCacheSize reliable "images-v2" 2 (world [("images-v2", abcd)])
    = (Ok tt, w1) /\
    Store.lookup "images-v2" (caches w1) = Some c /\
    length c <= 2 /\
    limitCacheSize reliable "images-v2" 2 w1 = (Ok tt, w2) /\
    caches w2 = caches w1.
Proof.
  split; [reflexivity|].
  apply (limitCacheSize_idempotent reliable "images-v2" 2
           (world [("images-v2", abcd)])).
  reflexivity.
Defined.

Lemma activate_keeps_current_and_is_idempotent_witness :
  In ("static-dev-1772130527350", []) afterBuild /\
  exists w1 w2,
    activate buildVersion (world afterBuild) = (Ok tt, w1) /\
    activate buildVersion w1 = (Ok tt, w2) /\
    caches w2 = caches w1 /\
    In ("static-dev-1772130527350", []) (caches w1).
Proof.
  split; [simpl; auto|].
  destruct (activate_keeps_current_and_is_idempotent buildVersion
              (world afterBuild)) as (w1 & w2 & E1 & E2 & Hc & Hkeep).
  exists w1, w2. repeat split; try assumption.
  apply Hkeep; [simpl; auto | left; reflexivity].
Defined.

Lemma install_frame_witness :
  "images-v2" <> STATIC_CACHE "v2" /\
  exists w',
    install appOrigin "v2" withoutIcon (world logoInImages) = (Ok tt, w') /\
    Store.lookup "images-v2" (caches w')
    = Some [("https://app.example/logo.png", stale)] /\
    network w' =
      [ "https://app.example/"; "https://app.example/index.html"
      ; "https://app.example/manifest.json"
      ; "https://app.example/favicon.png" ] /\
    hostCalls w' = ["skipWaiting"].
Proof.
  split; [discriminate|].
  destruct (install_frame appOrigin "v2" withoutIcon (world logoInImages))
    as (w' & E & Hother & Hn & Hh).
  exists w'. split; [exact E|]. split; [|split; assumption].
  rewrite (Hother "images-v2"); [reflexivity | discriminate].
Defined.

Lemma cacheFirst_round_trip_witness :
  NoDup (Store.names logoInDynamic) /\
  Store.matchAll (href (url (request "/app.js" "script"))) logoInDynamic
  = None /\
  online (href (url (request "/app.js" "script"))) = Some fresh /\
  status fresh = 200%Z /\
  exists w1,
    cacheFirst appOrigin online (request "/app.js" "script") "static-v2"
               (world logoInDynamic) = (Ok fresh, w1) /\
    cacheFirst appOrigin unreachable (request "/app.js" "script") "static-v2"
               w1 = (Ok fresh, w1).
Proof.
  assert (Hnd : NoDup (Store.names logoInDynamic)).
  { simpl. repeat constructor; simpl; intuition discriminate. }
  split; [exact Hnd|]. repeat (split; [reflexivity|]).
  apply (cacheFirst_round_trip appOrigin online unreachable
           (request "/app.js" "script") "static-v2" "static-v2"
           (world logoInDynamic) fresh Hnd); reflexivity.
Defined.

Lemma networkFirst_then_offline_witness :
  NoDup (Store.names withOfflinePage) /\
  heldOnlyBy "dynamic-v2" (href (url (request "/api/items" "")))
             withOfflinePage /\
  online (href (url (request "/api/items" ""))) = Some fresh /\
  status fresh = 200%Z /\
  unreachable (href (url (request "/api/items" ""))) = None /\
  exists w1 w2,
    networkFirst online reliable putLast
                 (request "/api/items" "") "dynamic-v2"
                 (world withOfflinePage) = (Ok fresh, w1) /\
    networkFirst unreachable reliable putLast
                 (request "/api/items" "") "dynamic-v2"
                 w1 = (Ok fresh, w2).
Proof.
  assert (Hnd : NoDup (Store.names withOfflinePage)).
  { simpl. repeat constructor; simpl; intuition discriminate. }
  assert (Hheld : heldOnlyBy "dynamic-v2"
                    (href (url (request "/api/items" ""))) withOfflinePage).
  { intros n c Hin _. simpl in Hin.
    destruct Hin as [E|[E|[]]]; inversion E; reflexivity. }
  split; [exact Hnd|]. split; [exact Hheld|].
  repeat (split; [reflexivity|]).
  apply (networkFirst_then_offline online unreachable reliable reliable
           putLast putLast
           (request "/api/items" "") "dynamic-v2" "dynamic-v2"
           (world withOfflinePage) fresh Hnd Hheld); reflexivity.
Defined.

Lemma staleWhileRevalidate_then_fresh_witness :
  NoDup (Store.names withOfflinePage) /\
  heldOnlyBy "images-v2" (href (url (request "/logo.png" "image")))
             withOfflinePage /\
  online (href (url (request "/logo.png" "image"))) = Some fresh /\
  status fresh = 200%Z /\
  exists w1 w2,
    settle online (staleWhileRevalidate reliable putLast
              (request "/logo.png" "image") "images-v2")
           (world withOfflinePage) = (Ok stale, w1) /\
    settle unreachable (staleWhileRevalidate reliable putLast
              (request "/logo.png" "image") "images-v2") w1
    = (Ok fresh, w2).
Proof.
  assert (Hnd : NoDup (Store.names withOfflinePage)).
  { simpl. repeat constructor; simpl; intuition discriminate. }
  assert (Hheld : heldOnlyBy "images-v2"
                    (href (url (request "/logo.png" "image")))
                    withOfflinePage).
  { intros n c Hin Hn. simpl in Hin.
    destruct Hin as [E|[E|[]]]; inversion E; subst;
      [reflexivity | now elim Hn]. }
  split; [exact Hnd|]. split; [exact Hheld|].
  repeat (split; [reflexivity|]).
  exact (staleWhileRevalidate_then_fresh online unreachable reliable reliable
           putLast putLast
           (request "/logo.png" "image") "images-v2" "images-v2"
           (world withOfflinePage) fresh Hnd Hheld eq_refl eq_refl).
Defined.

Lemma install_then_cacheFirst_witness :
  forallb (fun p => accepted (online (appOrigin ++ p)%string)) STATIC_ASSETS = true /\
  NoDup (Store.names logoInImages) /\
  heldOnlyBy (STATIC_CACHE "v2") (appOrigin ++ "/index.html")%string logoInImages /\
  In "/index.html" STATIC_ASSETS /\
  exists r w1,
    online (appOrigin ++ "/index.html")%string = Some r /\
    install appOrigin "v2" online (world logoInImages) = (Ok tt, w1) /\
    cacheFirst appOrigin unreachable
               (mkRequest (mkURL appOrigin "/index.html" "") "document")
               "static-v2" w1
    = (Ok r, w1).
Proof.
  assert (Hnd : NoDup (Store.names logoInImages)).
  { simpl. repeat constructor. intros []. }
  assert (Hheld : heldOnlyBy (STATIC_CACHE "v2") (appOrigin ++ "/index.html")%string
                    logoInImages).
  { intros n c Hin _. simpl in Hin.
    destruct Hin as [E|[]]; inversion E; reflexivity. }
  split; [reflexivity|]. split; [exact Hnd|]. split; [exact Hheld|].
  split; [simpl; auto|].
  apply (install_then_cacheFirst appOrigin "v2" online unreachable
           "/index.html" "document" "static-v2" (world logoInImages)
           eq_refl Hnd Hheld).
  simpl. auto.
Defined.

(** ** The streaming routes: parsing and printing numbers *)

Ltac digit :=
  match goal with
  | |- context [Streaming.digitOf ?c] =>
      let v := eval vm_compute in (Streaming.digitOf c) in
      change (Streaming.digitOf c) with v
  end;
  cbv beta iota;
  match goal with
  | |- context [(?k <? 10)%Z] =>
      let v := eval vm_compute in (k <? 10)%Z in
      change (k <? 10)%Z with v
  end;
  cbv beta iota.

Lemma valueOf_uint_acc d rest p :
  fold_left (fun acc x => (acc * 10 + x)%Z)
            (Streaming.digits 10 (NilEmpty.string_of_uint d ++ rest)) (Zpos p)
  = fold_left (fun acc x => (acc * 10 + x)%Z)
              (Streaming.digits 10 rest) (Zpos (Pos.of_uint_acc d p)).
Proof.
  revert p. induction d; intros p; [reflexivity|..];
    cbn [NilEmpty.string_of_uint append Streaming.digits Pos.of_uint_acc];
    digit; cbn [fold_left]; rewrite <- IHd; f_equal; lia.
Qed.

Lemma valueOf_uint d rest :
  fold_left (fun acc x => (acc * 10 + x)%Z)
            (Streaming.digits 10 (NilEmpty.string_of_uint d ++ rest)) 0%Z
  = fold_left (fun acc x => (acc * 10 + x)%Z)
              (Streaming.digits 10 rest) (Z.of_N (Pos.of_uint d)).
Proof.
  induction d; [reflexivity|..];
    cbn [NilEmpty.string_of_uint append Streaming.digits Pos.of_uint];
    digit; cbn [fold_left]; [exact IHd|..];
    cbn [Z.of_N]; rewrite <- valueOf_uint_acc; reflexivity.
Qed.

Lemma stops_digits R rest :
  Streaming.stops R rest = true -> Streaming.digits R rest = [].
Proof.
  destruct rest as [|c rest]; simpl; [reflexivity|].
  destruct (Streaming.digitOf c) as [d|]; [|reflexivity].
  now destruct (d <? R)%Z.
Qed.

(** A decimal numeral is read back by [parseInt] with radix 10 (or
    with no radix, as long as no [x] follows a leading zero), up to
    whatever follows it that is not a digit. *)
Lemma parseInt_uint radix d rest :
  radix = 10%Z \/ (radix = 0%Z /\ rest = EmptyString) ->
  Streaming.stops 10 rest = true ->
  Streaming.parseInt (NilZero.string_of_uint d ++ rest) radix
  = Streaming.exact (Z.of_N (Pos.of_uint d)).
Proof.
  intros Hr Hstop.
  assert (Hhex : radix = 0%Z ->
                 prefix "0x" (NilZero.string_of_uint d ++ rest) = false /\
                 prefix "0X" (NilZero.string_of_uint d ++ rest) = false).
  { intros H0. destruct Hr as [H10|[_ ->]]; [lia|].
    destruct d as [|d|d|d|d|d|d|d|d|d|d]; try (split; reflexivity);
      destruct d; split; reflexivity. }
  assert (Hval : forall s,
             s = (NilZero.string_of_uint d ++ rest)%string ->
             match Streaming.digits 10 s with
             | [] => Streaming.NaN
             | ds => Streaming.exact (1 * Streaming.valueOf 10 ds)
             end = Streaming.exact (Z.of_N (Pos.of_uint d))).
  { intros s ->. unfold Streaming.valueOf.
    destruct d; cbn [NilZero.string_of_uint NilEmpty.string_of_uint append
                     Streaming.digits Pos.of_uint];
      [change (Streaming.digitOf "0") with (Some 0%Z); cbv beta iota;
       change (0 <? 10)%Z with true; cbv beta iota;
       rewrite (stops_digits _ _ Hstop); reflexivity|..];
      digit; cbn [fold_left];
      match goal with
      | |- context [fold_left _ (Streaming.digits 10 _) ?a] =>
          let v := eval vm_compute in a in change a with v
      end;
      first [rewrite valueOf_uint | rewrite valueOf_uint_acc];
      rewrite (stops_digits _ _ Hstop); cbn [fold_left Z.of_N];
      f_equal; lia. }
  unfold Streaming.parseInt.
  assert (Hhead : exists c s,
             (NilZero.string_of_uint d ++ rest)%string = String c s /\
             Streaming.isWhiteSpace c = false /\
             c <> "-"%char /\ c <> "+"%char).
  { destruct d; cbn [NilZero.string_of_uint NilEmpty.string_of_uint append];
      do 2 eexists; (split; [reflexivity|]);
      (split; [reflexivity|]); split; discriminate. }
  destruct Hhead as (c & s & Hcs & Hws & Hminus & Hplus).
  rewrite Hcs in *. cbn [Streaming.trimStart]. rewrite Hws.
  assert (Hsign : match String c s with
                  | String "-"%char _ => (-1)%Z
                  | _ => 1%Z
                  end = 1%Z).
  { destruct c as [[] [] [] [] [] [] [] []]; try reflexivity.
    now elim Hminus. }
  assert (Hbody : match String c s with
                  | String "-"%char S' => S'
                  | String "+"%char S' => S'
                  | _ => String c s
                  end = String c s).
  { destruct c as [[] [] [] [] [] [] [] []]; try reflexivity;
      [now elim Hplus | now elim Hminus]. }
  cbv zeta. rewrite Hsign, Hbody.
  destruct Hr as [->|[-> _]].
  - change ((10 =? 0)%Z || (2 <=? 10)%Z && (10 <=? 36)%Z) with true.
    change ((10 =? 0)%Z || (10 =? 16)%Z) with false.
    cbn [andb]. cbv iota. change (10 =? 0)%Z with false. cbv iota.
    now apply Hval.
  - destruct (Hhex eq_refl) as [Hx HX]. rewrite Hx, HX.
    change ((0 =? 0)%Z || (2 <=? 0)%Z && (0 <=? 36)%Z) with true.
    change ((0 =? 0)%Z || (0 =? 16)%Z) with true.
    cbn [andb orb]. cbv iota. change (0 =? 0)%Z with true. cbv iota.
    now apply Hval.
Qed.

Lemma decimal_nonneg z :
  (0 <= z)%Z ->
  exists d, Streaming.decimal z = NilZero.string_of_uint d /\
            Z.of_N (Pos.of_uint d) = z.
Proof.
  intros Hz. unfold Streaming.decimal. destruct z as [|p|p]; [| |lia].
  - exists Decimal.zero. split; reflexivity.
  - exists (Pos.to_uint p). split; [reflexivity|].
    now rewrite DecimalPos.Unsigned.of_to.
Qed.

Lemma parseInt_decimal radix z rest :
  (0 <= z)%Z ->
  radix = 10%Z \/ (radix = 0%Z /\ rest = EmptyString) ->
  Streaming.stops 10 rest = true ->
  Streaming.parseInt (Streaming.decimal z ++ rest) radix = Streaming.exact z.
Proof.
  intros Hz Hr Hstop. destruct (decimal_nonneg z Hz) as (d & -> & <-).
  now apply parseInt_uint.
Qed.

Lemma exact_safe z :
  (Z.abs z <= 2 ^ 53)%Z -> Streaming.exact z = Streaming.Int z.
Proof.
  intros H. unfold Streaming.exact. apply Z.leb_le in H. now rewrite H.
Qed.

(** ** The streaming routes: splitting the Range header *)

Lemma split_nonempty sep s : Streaming.split sep s <> [].
Proof.
  destruct s as [|c s]; simpl; [discriminate|].
  destruct (Ascii.eqb c sep); [discriminate|].
  destruct (Streaming.split sep s); discriminate.
Qed.

Lemma split_uint d y :
  Streaming.split "-" (NilEmpty.string_of_uint d ++ y) =
  (NilEmpty.string_of_uint d ++ hd EmptyString (Streaming.split "-" y))%string
    :: tl (Streaming.split "-" y).
Proof.
  induction d; cbn [NilEmpty.string_of_uint append Streaming.split];
    [pose proof (split_nonempty "-" y);
     destruct (Streaming.split "-" y); [congruence | reflexivity]|..];
    match goal with
    | |- context [Ascii.eqb ?c "-"] =>
        change (Ascii.eqb c "-") with false
    end; cbv iota; rewrite IHd; reflexivity.
Qed.

Lemma split_decimal z y :
  (0 <= z)%Z ->
  Streaming.split "-" (Streaming.decimal z ++ y) =
  (Streaming.decimal z ++ hd EmptyString (Streaming.split "-" y))%string
    :: tl (Streaming.split "-" y).
Proof.
  intros Hz. destruct (decimal_nonneg z Hz) as (d & -> & _).
  destruct d; try apply split_uint.
  change (NilZero.string_of_uint Decimal.Nil)
    with (NilEmpty.string_of_uint (Decimal.D0 Decimal.Nil)).
  apply split_uint.
Qed.



Lemma removeFirst_bytes x :
  Streaming.removeFirst "bytes=" ("bytes=" ++ x) = x.
Proof. destruct x; reflexivity. Qed.

Lemma string_app_assoc (a b c : string) :
  ((a ++ b) ++ c = a ++ (b ++ c))%string.
Proof. induction a as [|x a IH]; simpl; congruence. Qed.


Lemma parseRange_open (a fileSize : Z) :
  (0 <= a <= 2 ^ 53 - 1)%Z ->
  (0 <= fileSize <= 2 ^ 53)%Z ->
  Streaming.parseRange ("bytes=" ++ Streaming.decimal a ++ "-") fileSize
  = Streaming.mkByteRange (Streaming.Int a) (Streaming.Int (fileSize - 1))
                          (Streaming.Int (fileSize - a)).
Proof.
  intros Ha Hf.
  assert (H53 : (1 <= 2 ^ 53)%Z) by (apply Z.leb_le; reflexivity).
  unfold Streaming.parseRange. rewrite removeFirst_bytes.
  rewrite split_decimal by lia.
  cbn [Streaming.split hd tl nth nth_error Ascii.eqb Bool.eqb]. cbv zeta.
  cbv iota.
  rewrite parseInt_decimal by (auto; lia).
  rewrite !exact_safe by lia. cbn [Streaming.sub Streaming.add].
  rewrite (exact_safe (fileSize - 1 - a)) by lia.
  cbn [Streaming.add]. rewrite exact_safe by lia. f_equal. f_equal. lia.
Qed.

(** The route on a request that has a Range header. *)
Lemma video_ranged (fileSize : Z) (range : string) :
  range <> EmptyString ->
  Streaming.video (Some fileSize) (Some range) =
  match Streaming.createReadStream
          (Streaming.start (Streaming.parseRange range fileSize))
          (Streaming.end_ (Streaming.parseRange range fileSize)) with
  | Some true =>
      match Streaming.toString
              (Streaming.start (Streaming.parseRange range fileSize)),
            Streaming.toString
              (Streaming.end_ (Streaming.parseRange range fileSize)),
            Streaming.chunkSize (Streaming.parseRange range fileSize) with
      | Some a, Some b, Streaming.Int n =>
          Some (Streaming.PartialContent
                  ("bytes " ++ a ++ "-" ++ b ++ "/" ++
                   Streaming.decimal fileSize)%string n)
      | _, _, _ => None
      end
  | Some false => Some Streaming.StreamingFailed
  | None => None
  end.
Proof. destruct range; [congruence | reflexivity]. Qed.

Lemma safeInteger_true z :
  (0 <= z <= 2 ^ 53 - 1)%Z -> Streaming.safeInteger z = true.
Proof.
  intros H. unfold Streaming.safeInteger.
  apply andb_true_intro. split; apply Z.leb_le; lia.
Qed.


(** X15. An open-ended range [bytes=a-] runs to the last byte of the
    file: the end is [fileSize - 1] and the length [fileSize - a].
    When the start lies within the file the route answers 206 with
    these; a start at or beyond the end of the file (and any start on
    an empty file) makes the start exceed the end, the stream cannot be
    created, and the route answers 500, Streaming failed. *)
Theorem video_open_ended (a fileSize : Z) :
  (0 <= a <= 2 ^ 53 - 1)%Z ->
  (0 <= fileSize <= 2 ^ 53)%Z ->
  Streaming.parseRange ("bytes=" ++ Streaming.decimal a ++ "-") fileSize
  = Streaming.mkByteRange (Streaming.Int a) (Streaming.Int (fileSize - 1))
                          (Streaming.Int (fileSize - a)) /\
  Streaming.video (Some fileSize)
    (Some ("bytes=" ++ Streaming.decimal a ++ "-")%string)
  = Some (if (a <? fileSize)%Z
          then Streaming.PartialContent
                 ("bytes " ++ Streaming.decimal a ++ "-" ++
                  Streaming.decimal (fileSize - 1) ++ "/" ++
                  Streaming.decimal fileSize)%string
                 (fileSize - a)
          else Streaming.StreamingFailed).
Proof.
  intros Ha Hf.
  assert (Hparse := parseRange_open a fileSize Ha Hf).
  split; [exact Hparse|].
  rewrite video_ranged by (cbn [append]; discriminate).
  rewrite Hparse.
  cbn [Streaming.start Streaming.end_ Streaming.chunkSize
       Streaming.createReadStream Streaming.toString].
  rewrite (safeInteger_true a) by lia.
  destruct (a <? fileSize)%Z eqn:E.
  - apply Z.ltb_lt in E. rewrite safeInteger_true by lia.
    cbn [andb]. apply Z.lt_le_pred in E.
    replace (Z.pred fileSize) with (fileSize - 1)%Z in E by lia.
    apply Z.leb_le in E. now rewrite E.
  - apply Z.ltb_ge in E.
    assert (H : (a <=? fileSize - 1)%Z = false) by (apply Z.leb_gt; lia).
    rewrite H, andb_false_r. reflexivity.
Qed.

(** X16. A suffix range [bytes=-n] is not understood: whatever follows
    the dash, the start is not a number, and so is the length. *)
Theorem parseRange_suffix_is_NaN (rest : string) (fileSize : Z) :
  Streaming.start (Streaming.parseRange ("bytes=-" ++ rest) fileSize)
  = Streaming.NaN /\
  Streaming.chunkSize (Streaming.parseRange ("bytes=-" ++ rest) fileSize)
  = Streaming.NaN.
Proof.
  unfold Streaming.parseRange.
  change ("bytes=-" ++ rest)%string with ("bytes=" ++ ("-" ++ rest))%string.
  rewrite removeFirst_bytes.
  change (Streaming.split "-" ("-" ++ rest))
    with (EmptyString :: Streaming.split "-" rest).
  cbn [nth]. cbv zeta. cbn [Streaming.start Streaming.chunkSize].
  change (Streaming.parseInt EmptyString 10) with Streaming.NaN.
  split; [reflexivity|].
  match goal with
  | |- Streaming.add (Streaming.sub ?e _) _ = _ => now destruct e
  end.
Qed.

(** ** The streaming routes: the data array and the event stream *)

Lemma concat_empty_cons x l :
  String.concat "" (x :: l) = (x ++ String.concat "" l)%string.
Proof.
  destruct l; simpl; [now rewrite append_empty | reflexivity].
Qed.

Lemma writeItems_join (stringify : nat -> string) count n i :
  n = 0 \/ Z.of_nat (i + n) = count ->
  String.concat "" (Streaming.writeItems stringify count n i)
  = String.concat "," (map stringify (seq i n)).
Proof.
  revert i. induction n as [|n IH]; intros i H; [reflexivity|].
  destruct H as [H|H]; [discriminate|].
  cbn [Streaming.writeItems seq map].
  destruct n as [|n].
  - replace (Z.of_nat i <? count - 1)%Z with false
      by (symmetry; apply Z.ltb_ge; lia).
    reflexivity.
  - replace (Z.of_nat i <? count - 1)%Z with true
      by (symmetry; apply Z.ltb_lt; lia).
    cbn [app]. rewrite !concat_empty_cons.
    rewrite IH by (right; lia). reflexivity.
Qed.

(** X17. The data route writes a well-separated array: whatever count
    it settles on, the chunks it writes are, put together, an opening
    bracket, the items of index 0 up to the count with exactly one
    comma between neighbours (none after the last), and a closing
    bracket; for a negative count that is the empty array. *)
Theorem data_is_a_separated_array
        (stringify : nat -> string) (count : option string) (c : Z) :
  Streaming.countOf count = Streaming.Int c ->
  Streaming.data stringify count = Some (Streaming.dataChunks stringify c) /\
  String.concat "" (Streaming.dataChunks stringify c)
  = ("[" ++ String.concat "," (map stringify (seq 0 (Z.to_nat c))) ++ "]")
    %string.
Proof.
  intros Hc. split; [unfold Streaming.data; now rewrite Hc|].
  unfold Streaming.dataChunks. rewrite concat_empty_cons. f_equal.
  assert (Happ : forall l,
             String.concat "" (l ++ ["]"])
             = (String.concat "" l ++ "]")%string).
  { induction l as [|x l IHl]; [reflexivity|].
    cbn [app]. rewrite !concat_empty_cons, IHl.
    now rewrite string_app_assoc. }
  rewrite Happ. f_equal. apply writeItems_join.
  destruct (Z.to_nat c) eqn:E; [now left|]. right. simpl. lia.
Qed.

(** X18. A count of one or more (up to 2^53), given in decimal, is the
    number of items; a count of zero is treated like an absent one and
    gives the default of 1000. *)
Theorem countOf_honoured_or_default (n : Z) :
  (1 <= n <= 2 ^ 53)%Z ->
  Streaming.countOf (Some (Streaming.decimal n)) = Streaming.Int n /\
  Streaming.countOf (Some (Streaming.decimal 0)) = Streaming.Int 1000 /\
  Streaming.countOf None = Streaming.Int 1000.
Proof.
  intros Hn. split; [|split; reflexivity].
  unfold Streaming.countOf.
  rewrite <- (append_empty (Streaming.decimal n)).
  rewrite parseInt_decimal by (auto; lia).
  rewrite exact_safe by lia. destruct n; [lia | reflexivity | lia].
Qed.

Lemma events_ticks es s :
  forallb Streaming.isTick es = true ->
  Streaming.timer s = true ->
  fold_left Streaming.step es s
  = Streaming.mkStream
      (Streaming.written s ++ flat_map Streaming.frameOf es)
      true (Streaming.ended s).
Proof.
  revert s. induction es as [|e es IH]; intros s Hes Ht.
  - simpl. rewrite app_nil_r. destruct s. simpl in Ht. now subst.
  - simpl in Hes. apply andb_true_iff in Hes. destruct Hes as [He Hes].
    destruct e as [json|]; [|discriminate].
    cbn [fold_left Streaming.step flat_map Streaming.frameOf]. rewrite Ht.
    rewrite IH by (auto; reflexivity).
    cbn [Streaming.written Streaming.ended]. now rewrite <- app_assoc.
Qed.

Lemma events_after_close es ws :
  fold_left Streaming.step es (Streaming.mkStream ws false true)
  = Streaming.mkStream ws false true.
Proof.
  induction es as [|e es IH]; [reflexivity|].
  destruct e; simpl; exact IH.
Qed.

(** X19. The event stream stops at the disconnect: every update of
    the interval before the client disconnects is written, in order,
    after the greeting; once the client has disconnected the timer is
    cleared and the response ended, and nothing that happens
    afterwards writes anything. *)
Theorem events_stop_at_close (before after : list Streaming.Event) :
  forallb Streaming.isTick before = true ->
  Streaming.events (before ++ Streaming.Close :: after)
  = Streaming.mkStream
      (Streaming.written Streaming.connect
       ++ flat_map Streaming.frameOf before)
      false true.
Proof.
  intros Hb. unfold Streaming.events. rewrite fold_left_app.
  rewrite (events_ticks before Streaming.connect Hb eq_refl).
  cbn [fold_left Streaming.step Streaming.written].
  apply events_after_close.
Qed.

(** ** The streaming routes at sample inputs *)


Example video_backward_range :
  Streaming.video (Some 500%Z) (Some "bytes=10-5")
  = Some Streaming.StreamingFailed /\
  Streaming.video (Some 500%Z) (Some "bytes=-100")
  = Some Streaming.StreamingFailed /\
  Streaming.video (Some 500%Z) None = Some (Streaming.WholeFile 500) /\
  Streaming.video None (Some "bytes=0-1") = Some Streaming.NotFound.
Proof. repeat split. Qed.

Lemma video_open_ended_witness :
  (0 <= 700 <= 2 ^ 53 - 1)%Z /\ (0 <= 500 <= 2 ^ 53)%Z /\
  Streaming.parseRange "bytes=700-" 500
  = Streaming.mkByteRange (Streaming.Int 700) (Streaming.Int 499)
                          (Streaming.Int (-200)) /\
  Streaming.video (Some 500%Z) (Some "bytes=700-")
  = Some Streaming.StreamingFailed.
Proof.
  assert (Ha : (0 <= 700 <= 2 ^ 53 - 1)%Z)
    by (split; apply Z.leb_le; reflexivity).
  assert (Hf : (0 <= 500 <= 2 ^ 53)%Z)
    by (split; apply Z.leb_le; reflexivity).
  split; [exact Ha|]. split; [exact Hf|].
  exact (video_open_ended 700 500 Ha Hf).
Defined.

Lemma data_is_a_separated_array_witness :
  Streaming.countOf (Some "3 items") = Streaming.Int 3 /\
  Streaming.data (fun i => Streaming.decimal (Z.of_nat i)) (Some "3 items")
  = Some ["["; "0"; ","; "1"; ","; "2"; "]"] /\
  String.concat "" ["["; "0"; ","; "1"; ","; "2"; "]"] = "[0,1,2]".
Proof.
  split; [reflexivity|].
  exact (data_is_a_separated_array
           (fun i => Streaming.decimal (Z.of_nat i)) (Some "3 items") 3
           eq_refl).
Defined.

Lemma countOf_honoured_or_default_witness :
  (1 <= 25 <= 2 ^ 53)%Z /\
  Streaming.countOf (Some "25") = Streaming.Int 25 /\
  Streaming.countOf (Some "0") = Streaming.Int 1000 /\
  Streaming.countOf None = Streaming.Int 1000.
Proof.
  assert (Hn : (1 <= 25 <= 2 ^ 53)%Z) by (split; apply Z.leb_le; reflexivity).
  split; [exact Hn|].
  exact (countOf_honoured_or_default 25 Hn).
Defined.

Lemma events_stop_at_close_witness :
  forallb Streaming.isTick [Streaming.Tick "{}"; Streaming.Tick "{}"] = true /\
  Streaming.written
    (Streaming.events
       [ Streaming.Tick "{}"; Streaming.Tick "{}"; Streaming.Close
       ; Streaming.Tick "{}"; Streaming.Close ])
  = Streaming.written Streaming.connect
    ++ [ ("data: {}" ++ Streaming.newline ++ Streaming.newline)%string
       ; ("data: {}" ++ Streaming.newline ++ Streaming.newline)%string ].
Proof.
  split; [reflexivity|].
  exact (f_equal Streaming.written
           (events_stop_at_close
              [Streaming.Tick "{}"; Streaming.Tick "{}"]
              [Streaming.Tick "{}"; Streaming.Close] eq_refl)).
Defined.
